(** * jkv: the filesystem backend and the command dispatcher

    A shallow embedding of [store/fs/fs.go] (the filesystem backend of the
    key-value store) and of [ProcessCmd] (the line dispatcher of
    [jkv-cli/main.go], with its earlier revision), and the properties of
    the design document settled against them.

    Go strings are byte sequences: they are [string] here, one [ascii] per
    byte.  A Go [error] is [option error], [None] being [nil].  Go's
    multiple results are tuples in the order of the source.  A function
    that can panic returns an [outcome]. *)

From Stdlib Require Import Ascii String ZArith.
From stdpp Require Import gmap strings list fin_maps pretty sorting.

#[local] Set Warnings "-register-all".

(** ** Errors *)

(** The error numbers the model of package [os] can report, and [EIO],
    which only a read of standard input reports. *)
Inductive Errno :=
  | ENOENT | ENOTDIR | EISDIR | ENOTEMPTY | EINVAL | EBUSY | EIO.

(** Error values: [errors.New] and [fmt.Errorf] build an [ErrorString],
    package [os] a [PathError], and [EOF] is the sentinel [io.EOF]. *)
Inductive error :=
  | ErrorString (msg : string)
  | PathError (op path : string) (e : Errno)
  | EOF.

#[global] Instance Errno_eq_dec : EqDecision Errno.
Proof. solve_decision. Defined.

#[global] Instance error_eq_dec : EqDecision error.
Proof. solve_decision. Defined.

Definition strerror (e : Errno) : string :=
  match e with
  | ENOENT => "no such file or directory"
  | ENOTDIR => "not a directory"
  | EISDIR => "is a directory"
  | ENOTEMPTY => "directory not empty"
  | EINVAL => "invalid argument"
  | EBUSY => "device or resource busy"
  | EIO => "input/output error"
  end.

(** The method [Error()] of an error value. *)
Definition Error (e : error) : string :=
  match e with
  | ErrorString msg => msg
  | PathError op path e => op +:+ " " +:+ path +:+ ": " +:+ strerror e
  | EOF => "EOF"
  end.

(** What a Go function does when it is done: it returns, or it panics.
    Nothing in this program recovers from a panic. *)
Inductive PanicValue :=
  | IndexOutOfRange (i len : nat)
  | NilDereference
  | PanicString (msg : string).

Inductive outcome (A : Type) :=
  | Returned (a : A)
  | Panicked (v : PanicValue).
Arguments Returned {A} a.
Arguments Panicked {A} v.

(** ** Package os: a directory tree

    The backend reaches storage only through package [os].  The model is a
    tree of directories and regular files.  Its root is the directory that
    every path is resolved against: a leading separator is dropped, so
    absolute and relative paths start there.  There are no links,
    permissions, resource limits or I/O failures: an operation fails only
    for the shape of the tree or of the path, and on a path with empty,
    [.] or [..] components the error number may differ from the kernel's
    (that there is an error does not). *)
Module os.

Inductive node :=
  | File (data : string)
  | Dir (entries : gmap string node).

(** The components of a path: the pieces between the separators, empty
    pieces included. *)
Fixpoint split (s : string) : list string :=
  match s with
  | EmptyString => [EmptyString]
  | String c s' =>
      if Ascii.eqb c "/" then EmptyString :: split s'
      else match split s' with
           | h :: t => String c h :: t
           | [] => [String c EmptyString]
           end
  end.

(** Go refuses a path with a NUL byte before any system call. *)
Fixpoint has_nul (s : string) : bool :=
  match s with
  | EmptyString => false
  | String c s' => Ascii.eqb c "000" || has_nul s'
  end.

(** The node at a path of names below [n]. *)
Fixpoint lookup_node (p : list string) (n : node) : option node :=
  match p with
  | [] => Some n
  | c :: rest =>
      match n with
      | Dir m => m !! c ≫= lookup_node rest
      | File _ => None
      end
  end.

(** Put [new] at path [p] ([None] unlinks the entry).  The directories
    above [p] must exist; the root itself is never replaced. *)
Fixpoint set_node (p : list string) (new : option node) (n : node) : node :=
  match p with
  | [] => n
  | c :: rest =>
      match n with
      | File _ => n
      | Dir m =>
          match rest with
          | [] => Dir (partial_alter (λ _, new) c m)
          | _ :: _ => Dir (alter (set_node rest new) c m)
          end
      end
  end.

(** Path resolution, component by component.  [stack] is the directory
    reached so far, as names below the root.  Every step starts from an
    existing directory; the last name may be absent. *)
Fixpoint walk (root : node) (stack comps : list string) : Errno + list string :=
  match comps with
  | [] => inr stack
  | c :: rest =>
      match lookup_node stack root with
      | None => inl ENOENT
      | Some (File _) => inl ENOTDIR
      | Some (Dir _) =>
          if decide (c = "" ∨ c = ".") then walk root stack rest
          else if decide (c = "..") then walk root (removelast stack) rest
          else walk root (stack ++ [c]) rest
      end
  end.

Definition resolve (name : string) (root : node) : Errno + list string :=
  if has_nul name then inl EINVAL
  else if decide (name = "") then inl ENOENT
  else walk root [] (split name).

(** [os.Stat]: the result says whether the name is a directory. *)
Definition Stat (name : string) (fs : node) : bool * option error :=
  match resolve name fs with
  | inl e => (false, Some (PathError "stat" name e))
  | inr p =>
      match lookup_node p fs with
      | Some (Dir _) => (true, None)
      | Some (File _) => (false, None)
      | None => (false, Some (PathError "stat" name ENOENT))
      end
  end.

(** [os.ReadFile]; [string(data)] of the nil slice of a failed read is
    the empty string. *)
Definition ReadFile (name : string) (fs : node) : string * option error :=
  match resolve name fs with
  | inl e => ("", Some (PathError "open" name e))
  | inr p =>
      match lookup_node p fs with
      | Some (File data) => (data, None)
      | Some (Dir _) => ("", Some (PathError "read" name EISDIR))
      | None => ("", Some (PathError "open" name ENOENT))
      end
  end.

(** [os.WriteFile]: create or truncate, then write. *)
Definition WriteFile (name data : string) (fs : node) : option error * node :=
  match resolve name fs with
  | inl e => (Some (PathError "open" name e), fs)
  | inr p =>
      match lookup_node p fs with
      | Some (Dir _) => (Some (PathError "open" name EISDIR), fs)
      | _ => (None, set_node p (Some (File data)) fs)
      end
  end.

(** [os.Remove]: a file, or an empty directory. *)
Definition Remove (name : string) (fs : node) : option error * node :=
  match resolve name fs with
  | inl e => (Some (PathError "remove" name e), fs)
  | inr p =>
      match lookup_node p fs with
      | None => (Some (PathError "remove" name ENOENT), fs)
      | Some (File _) => (None, set_node p None fs)
      | Some (Dir m) =>
          if decide (p = []) then (Some (PathError "remove" name EBUSY), fs)
          else if decide (m = ∅) then (None, set_node p None fs)
          else (Some (PathError "remove" name ENOTEMPTY), fs)
      end
  end.

(** Go's [endsWithDot]: the path is [.] or ends in [/.]. *)
Fixpoint endsWithDot (s : string) : bool :=
  match s with
  | EmptyString => false
  | String c s' =>
      match s' with
      | EmptyString => Ascii.eqb c "."
      | String d EmptyString =>
          Ascii.eqb c "/" && Ascii.eqb d "."
      | _ => endsWithDot s'
      end
  end.

(** [os.RemoveAll]: the empty path is a silent no-op, a path ending in a
    dot is refused, a path that does not exist is no error. *)
Definition RemoveAll (path : string) (fs : node) : option error * node :=
  if decide (path = "") then (None, fs)
  else if endsWithDot path
  then (Some (PathError "RemoveAll" path EINVAL), fs)
  else
    match resolve path fs with
    | inl ENOENT => (None, fs)
    | inl e => (Some (PathError "unlinkat" path e), fs)
    | inr p =>
        match lookup_node p fs with
        | None => (None, fs)
        | Some _ =>
            if decide (p = []) then (Some (PathError "unlinkat" path EBUSY), Dir ∅)
            else (None, set_node p None fs)
        end
    end.

(** [os.MkdirAll]: create every missing directory along the path.  What
    was created before a failure stays. *)
Fixpoint mkdir_walk (stack comps : list string) (fs : node) : option Errno * node :=
  match comps with
  | [] => (None, fs)
  | c :: rest =>
      if decide (c = "" ∨ c = ".") then mkdir_walk stack rest fs
      else if decide (c = "..") then mkdir_walk (removelast stack) rest fs
      else
        match lookup_node (stack ++ [c]) fs with
        | Some (Dir _) => mkdir_walk (stack ++ [c]) rest fs
        | Some (File _) => (Some ENOTDIR, fs)
        | None =>
            mkdir_walk (stack ++ [c]) rest (set_node (stack ++ [c]) (Some (Dir ∅)) fs)
        end
  end.

Definition MkdirAll (path : string) (fs : node) : option error * node :=
  if has_nul path then (Some (PathError "mkdir" path EINVAL), fs)
  else if decide (path = "") then (Some (PathError "mkdir" path ENOENT), fs)
  else
    match mkdir_walk [] (split path) fs with
    | (Some e, fs') => (Some (PathError "mkdir" path e), fs')
    | (None, fs') => (None, fs')
    end.

(** [os.ReadDir]: the entries of a directory, sorted by name.  Only the
    names of the entries are used by the backend. *)
Definition sort_names (l : list string) : list string :=
  merge_sort String.le l.

Definition ReadDir (name : string) (fs : node) : list string * option error :=
  match resolve name fs with
  | inl e => ([], Some (PathError "open" name e))
  | inr p =>
      match lookup_node p fs with
      | Some (Dir m) => (sort_names (fst <$> map_to_list m), None)
      | Some (File _) => ([], Some (PathError "readdirent" name ENOTDIR))
      | None => ([], Some (PathError "open" name ENOENT))
      end
  end.

End os.

(** ** Package jkv: the results of the contract *)
Module jkv.

(** Modelled from the spec: the result types of package [jkv] (the file
    that declares [StringCmd], [StatusCmd], [IntCmd], [BoolCmd] and
    [StringSliceCmd] is not among the sources).  The contract returns "a
    value/error pair per operation": [NewXCmd val err] builds the pair,
    [Val()] and [Err()] read it back. *)
Record StringCmd := NewStringCmd { StringCmd_Val : string; StringCmd_Err : option error }.
Record StatusCmd := NewStatusCmd { StatusCmd_Val : string; StatusCmd_Err : option error }.
Record IntCmd := NewIntCmd { IntCmd_Val : Z; IntCmd_Err : option error }.
Record BoolCmd := NewBoolCmd { BoolCmd_Val : bool; BoolCmd_Err : option error }.
Record StringSliceCmd :=
  NewStringSliceCmd { StringSliceCmd_Val : list string; StringSliceCmd_Err : option error }.

End jkv.

(** ** Package fs: the filesystem backend ([store/fs/fs.go]) *)
Module fs.
Import jkv.

Record Options := { Addr : string; Password : string; DB : Z }.

Record Client := { DBDir : string; IsOpen : bool }.

Definition DEFAULT_DB : string := "jkv_db".

Definition ScalarDir (j : Client) : string := DBDir j +:+ "/scalars/".
Definition HashDir (j : Client) : string := DBDir j +:+ "/hashes/".
Definition notOpen : error := ErrorString "DB is not open".

Definition NewClient (opts : Options) : Client :=
  {| DBDir := Addr opts; IsOpen := false |}.

(** The methods take the receiver and the directory tree, and give back
    what they return together with what they changed: the receiver for
    [Open] and [Close] (and [FlushDB], which leaves it alone), the tree for
    the methods that write. *)

Definition set_IsOpen (b : bool) (j : Client) : Client :=
  {| DBDir := DBDir j; IsOpen := b |}.

(** The loop of [Open] over its two directories. *)
Fixpoint Open_dirs (dirs : list string) (fs : os.node) : option error * os.node :=
  match dirs with
  | [] => (None, fs)
  | dir :: rest =>
      match os.MkdirAll dir fs with
      | (Some err, fs') => (Some err, fs')
      | (None, fs') => Open_dirs rest fs'
      end
  end.

Definition Open (j : Client) (fs : os.node) : option error * Client * os.node :=
  let j := set_IsOpen false j in
  match Open_dirs [ScalarDir j; HashDir j] fs with
  | (Some err, fs') => (Some err, j, fs')
  | (None, fs') => (None, set_IsOpen true j, fs')
  end.

Definition Close (j : Client) : Client := set_IsOpen false j.

Definition FlushDB (j : Client) (fs : os.node) : Client * os.node :=
  (j, snd (os.RemoveAll (DBDir j) fs)).

Definition Get (c : Client) (key : string) (fs : os.node) : StringCmd :=
  if IsOpen c then
    let '(data, err) := os.ReadFile (ScalarDir c +:+ key) fs in
    NewStringCmd data err
  else NewStringCmd "" (Some notOpen).

Definition Set_ (c : Client) (key value : string) (fs : os.node) : StatusCmd * os.node :=
  if IsOpen c then
    let '(err, fs') := os.WriteFile (DBDir c +:+ "/scalars/" +:+ key) value fs in
    (NewStatusCmd "OK" err, fs')
  else (NewStatusCmd "" (Some notOpen), fs).

(** [keys[0]] panics on an empty argument list. *)
Definition Del (c : Client) (keys : list string) (fs : os.node)
  : outcome (IntCmd * os.node) :=
  if IsOpen c then
    match keys with
    | [] => Panicked (IndexOutOfRange 0 0)
    | key0 :: _ =>
        let '(err, fs') := os.Remove (ScalarDir c +:+ key0) fs in
        Returned (NewIntCmd (Z.of_nat (length keys)) err, fs')
    end
  else Returned (NewIntCmd 0 (Some notOpen), fs).

(** The loop of [Keys] over the two directories; [files] accumulates. *)
Fixpoint Keys_dirs (dirs : list string) (files : list string) (fs : os.node)
  : StringSliceCmd :=
  match dirs with
  | [] => NewStringSliceCmd files None
  | dir :: rest =>
      match os.ReadDir dir fs with
      | (_, Some err) => NewStringSliceCmd [] (Some err)
      | (entries, None) => Keys_dirs rest (files ++ entries) fs
      end
  end.

Definition Keys (c : Client) (pattern : string) (fs : os.node) : StringSliceCmd :=
  Keys_dirs [ScalarDir c; HashDir c] [] fs.

Definition Exists (c : Client) (keys : list string) (fs : os.node) : outcome IntCmd :=
  if IsOpen c then
    match keys with
    | [] => Panicked (IndexOutOfRange 0 0)
    | key0 :: _ =>
        match os.Stat (ScalarDir c +:+ key0) fs with
        | (_, Some err) => Returned (NewIntCmd 0 (Some err))
        | (_, None) => Returned (NewIntCmd 1 None)
        end
    end
  else Returned (NewIntCmd 0 None).

Definition HGet (c : Client) (hash key : string) (fs : os.node) : StringCmd :=
  if IsOpen c then
    match os.ReadFile (HashDir c +:+ hash +:+ "/" +:+ key) fs with
    | (_, Some err) => NewStringCmd "" (Some err)
    | (data, None) => NewStringCmd data None
    end
  else NewStringCmd "" (Some notOpen).

Definition quote : string := String "034" EmptyString.

(** [fmt.Errorf] of [HSet]. *)
Definition scalarExists (hash : string) : error :=
  ErrorString ("key " +:+ quote +:+ hash +:+ quote +:+ " exists as a scalar, cannot be a hash").

(** [HSet].  After the last write the source builds [NewIntCmd(1, nil)]
    and drops it (there is no [return]), so control reaches the final
    [return] of the method. *)
Definition HSet (c : Client) (hash key value : string) (fs : os.node)
  : outcome (IntCmd * os.node) :=
  if IsOpen c then
    match Exists c [hash] fs with
    | Panicked v => Panicked v
    | Returned rec =>
        if decide (IntCmd_Err rec ≠ None) then Returned (NewIntCmd 0 (IntCmd_Err rec), fs)
        else if decide (IntCmd_Val rec > 0)%Z then
          Returned (NewIntCmd 0 (Some (scalarExists hash)), fs)
        else
          match os.MkdirAll (HashDir c +:+ hash) fs with
          | (Some _, fs1) => Returned (NewIntCmd 0 (IntCmd_Err rec), fs1)
          | (None, fs1) =>
              match os.WriteFile (HashDir c +:+ hash +:+ "/" +:+ key) value fs1 with
              | (Some _, fs2) => Returned (NewIntCmd 0 (IntCmd_Err rec), fs2)
              | (None, fs2) =>
                  let _ := NewIntCmd 1 None in
                  Returned (NewIntCmd 0 (Some notOpen), fs2)
              end
          end
    end
  else Returned (NewIntCmd 0 (Some notOpen), fs).

Definition HDel (c : Client) (hash key : string) (fs : os.node) : IntCmd * os.node :=
  if IsOpen c then
    match os.Remove (HashDir c +:+ hash +:+ "/" +:+ key) fs with
    | (Some err, fs1) => (NewIntCmd 0 (Some err), fs1)
    | (None, fs1) =>
        match os.ReadDir (HashDir c +:+ hash) fs1 with
        | (_, Some err) => (NewIntCmd 0 (Some err), fs1)
        | (entries, None) =>
            if decide (length entries = 0) then
              match os.RemoveAll (HashDir c +:+ hash) fs1 with
              | (Some err, fs2) => (NewIntCmd 0 (Some err), fs2)
              | (None, fs2) => (NewIntCmd (Z.of_nat (length entries)) None, fs2)
              end
            else (NewIntCmd (Z.of_nat (length entries)) None, fs1)
        end
    end
  else (NewIntCmd 0 (Some notOpen), fs).

Definition HKeys (c : Client) (hash : string) (fs : os.node) : StringSliceCmd :=
  if IsOpen c then
    match os.Stat (HashDir c +:+ hash) fs with
    | (_, None) =>
        match os.ReadDir (HashDir c +:+ hash) fs with
        | (_, Some err) => NewStringSliceCmd [] (Some err)
        | (files, None) => NewStringSliceCmd files None
        end
    | (_, Some err) => NewStringSliceCmd [] (Some err)
    end
  else NewStringSliceCmd [] (Some notOpen).

Definition HExists (c : Client) (hash key : string) (fs : os.node) : BoolCmd :=
  if IsOpen c then
    match os.Stat (HashDir c +:+ hash +:+ "/" +:+ key) fs with
    | (_, Some err) => NewBoolCmd false (Some err)
    | (_, None) => NewBoolCmd true None
    end
  else NewBoolCmd false (Some notOpen).

Definition Ping (c : Client) : StatusCmd :=
  if IsOpen c then NewStatusCmd "PONG" None
  else NewStatusCmd "" (Some notOpen).

End fs.

(** ** The command dispatcher ([ProcessCmd] of [jkv-cli/main.go]) *)
Module cli.
Import jkv.

(** [strings.Fields] and [strings.ToUpper] first look at the bytes of
    their argument.  When every byte is below [utf8.RuneSelf] (0x80) they
    take their ASCII paths, which are [Fields] and [ToUpper] below.
    Otherwise they decode runes and go by the tables of package [unicode]
    (other white space, other letters); that path is not modelled, and
    every statement about a line or an argument assumes [isASCII] of it. *)
Fixpoint isASCII (s : string) : bool :=
  match s with
  | EmptyString => true
  | String c s' => (nat_of_ascii c <? 128)%nat && isASCII s'
  end.

(** Bytes that [strings.Fields] takes for white space in a line of ASCII. *)
Definition asciiSpace (c : ascii) : bool :=
  match nat_of_ascii c with
  | 9 | 10 | 11 | 12 | 13 | 32 => true
  | _ => false
  end.

(** [strings.Fields], for lines with [isASCII]: the maximal runs of bytes
    that are not white space.  [cur] is the field being read, if any. *)
Fixpoint Fields_go (cur : option string) (s : string) : list string :=
  match s with
  | EmptyString => option_list cur
  | String c s' =>
      if asciiSpace c then option_list cur ++ Fields_go None s'
      else Fields_go (Some (default "" cur +:+ String c "")) s'
  end.

Definition Fields (s : string) : list string := Fields_go None s.

(** [strings.ToUpper], for strings with [isASCII]: the letters a to z are
    mapped. *)
Definition upper (c : ascii) : ascii :=
  let n := nat_of_ascii c in
  if (97 <=? n)%nat && (n <=? 122)%nat then ascii_of_nat (n - 32) else c.

Fixpoint ToUpper (s : string) : string :=
  match s with
  | EmptyString => EmptyString
  | String c s' => String (upper c) (ToUpper s')
  end.

Definition nl : string := String "010" EmptyString.
Definition quote : string := String "034" EmptyString.

(** The calls a command makes on its backend, in order. *)
Inductive Call :=
  | CallFlushDB
  | CallHGet (hash key : string)
  | CallExists (key : string)
  | CallHSet (hash key value : string)
  | CallHDel (hash key : string)
  | CallHKeys (hash : string)
  | CallHExists (hash key : string)
  | CallGet (key : string)
  | CallSet (key value : string)
  | CallDel (key : string)
  | CallKeys (pattern : string).

(** What one [os.Stdin.Read(buf)] gives: the bytes put in [buf] (their
    number is the [n] of the source) and the error. *)
Record ReadResult := { rdata : string; rerr : option error }.

Section Dispatcher.

(** The state of the store behind the backend. *)
Context {S : Type}.

(** The two backends [ProcessCmd] is called with.  Neither type is among
    the sources ([store/redis] is absent, and [store/fs/fs.go] declares
    [Client], not [JKV_DB]), so their methods are parameters: any
    functions of the store, with the result types the call sites use. *)
Record RedisClient := {
  r_FlushDB : S → S;
  r_HGet : string → string → S → StringCmd * S;
  r_Exists : list string → S → IntCmd * S;
  r_HSet : string → string → string → S → IntCmd * S;
  r_HDel : string → string → S → IntCmd * S;
  r_HKeys : string → S → StringSliceCmd * S;
  r_HExists : string → string → S → BoolCmd * S;
  r_Get : string → S → StringCmd * S;
  r_Set : string → string → S → StatusCmd * S;
  r_Del : list string → S → IntCmd * S;
  r_Keys : string → S → StringSliceCmd * S }.

Record JKV_DB := {
  FLUSHDB : S → S;
  HGET : string → string → S → (string * option error) * S;
  EXISTS : string → S → bool * S;
  HSET : string → string → string → S → option error * S;
  HDEL : string → string → S → option error * S;
  HKEYS : string → S → (list string * option error) * S;
  HEXISTS : string → string → S → bool * S;
  GET : string → S → (string * option error) * S;
  SET : string → string → S → option error * S;
  DEL : string → S → option error * S;
  KEYS : string → S → (list string * option error) * S }.

(** The dynamic type of the argument [db]: [main] passes one of the two. *)
Inductive DB :=
  | redis_Client (r : RedisClient)
  | fs_JKV_DB (f : JKV_DB).

(** What a command can see and change: the store, what was written to
    standard output, what standard input will give to the next reads, and
    the log of backend calls. *)
Record World := {
  store : S;
  stdout : string;
  stdin : list ReadResult;
  calls : list Call }.

Inductive Result (A : Type) :=
  | Done (a : A) (w : World)
  | Panic (v : PanicValue) (w : World).
Arguments Done {A} a w.
Arguments Panic {A} v w.

Definition M (A : Type) : Type := World → Result A.

#[export] Instance M_ret : MRet M := λ A a w, Done a w.
#[export] Instance M_bind : MBind M := λ A B f m w,
  match m w with
  | Done a w' => f a w'
  | Panic v w' => Panic v w'
  end.

Definition panic {A} (v : PanicValue) : M A := λ w, Panic v w.

(** [fmt.Println] and [fmt.Printf] once the text is formatted. *)
Definition print (s : string) : M unit := λ w,
  Done () {| store := store w; stdout := stdout w +:+ s;
             stdin := stdin w; calls := calls w |}.

Definition Println (s : string) : M unit := print (s +:+ nl).

(** A backend call: log it and run it on the store. *)
Definition call {A} (c : Call) (f : S → A * S) : M A := λ w,
  let '(a, s') := f (store w) in
  Done a {| store := s'; stdout := stdout w; stdin := stdin w;
            calls := calls w ++ [c] |}.

(** [os.Stdin.Read(buf)]: end of input once nothing is left. *)
Definition Stdin_Read : M ReadResult := λ w,
  match stdin w with
  | [] => Done {| rdata := ""; rerr := Some EOF |} w
  | r :: rest =>
      Done r {| store := store w; stdout := stdout w; stdin := rest;
                calls := calls w |}
  end.

(** [tokens[i]], with the bounds check of the run time. *)
Definition index (tokens : list string) (i : nat) : M string :=
  match tokens !! i with
  | Some t => mret t
  | None => panic (IndexOutOfRange i (length tokens))
  end.

Definition print_nil_or_value (err : option error) (value : string) : M unit :=
  if decide (err ≠ None) then Println "(nil)"
  else print (quote +:+ value +:+ quote +:+ nl).

Definition print_nil_or_OK (err : option error) : M unit :=
  if decide (err ≠ None) then Println "(nil)" else Println "OK".

(** [for i, v := range values { fmt.Printf("%d) \"%s\"\n", i+1, v) }] *)
Fixpoint print_list (i : nat) (values : list string) : M unit :=
  match values with
  | [] => mret ()
  | v :: rest =>
      print (pretty (i + 1)%nat +:+ ") " +:+ quote +:+ v +:+ quote +:+ nl);;
      print_list (i + 1) rest
  end.

Definition print_nil_or_list (err : option error) (values : list string) : M unit :=
  if decide (err ≠ None) then Println "(nil)" else print_list 0 values.

Definition WRONGTYPE : string :=
  "(error) WRONGTYPE Operation against a key holding the wrong kind of value".

Definition wrong_args (cmd : string) : string :=
  "(error) ERR wrong number of arguments for '" +:+ cmd +:+ "' command".

Definition cmd_FLUSHDB (db : DB) (tokens : list string) : M unit :=
  if decide (length tokens = 1) then
    match db with
    | redis_Client r => call CallFlushDB (λ s, ((), r_FlushDB r s))
    | fs_JKV_DB f => call CallFlushDB (λ s, ((), FLUSHDB f s))
    end;;
    Println "OK"
  else Println "(error) ERR syntax error".

Definition cmd_HGET (db : DB) (tokens : list string) : M unit :=
  if decide (length tokens = 3) then
    '(value, err) ←
      match db with
      | redis_Client r =>
          t1 ← index tokens 1; t2 ← index tokens 2;
          rec ← call (CallHGet t1 t2) (r_HGet r t1 t2);
          mret (StringCmd_Val rec, StringCmd_Err rec)
      | fs_JKV_DB f =>
          t1 ← index tokens 1; t2 ← index tokens 2;
          call (CallHGet t1 t2) (HGET f t1 t2)
      end;
    print_nil_or_value err value
  else Println "(nil)".

(** The loop of HSET: [n] runs from its start value up to [bound]; [fuel]
    is the number of rounds left.  The result is [None] after a failed
    write (the source returns there) and the final [n] otherwise. *)
Fixpoint hset_loop (db : DB) (tokens : list string) (hash : string)
    (fuel n : nat) : M (option nat) :=
  match fuel with
  | 0 => mret (Some n)
  | Datatypes.S fuel' =>
      key ← index tokens (2 + n * 2);
      value ← index tokens (2 + n * 2 + 1);
      err ←
        match db with
        | redis_Client r =>
            rec ← call (CallHSet hash key value) (r_HSet r hash key value);
            mret (IntCmd_Err rec)
        | fs_JKV_DB f => call (CallHSet hash key value) (HSET f hash key value)
        end;
      if decide (err ≠ None) then
        Println (from_option Error "" err);; mret None
      else hset_loop db tokens hash fuel' (n + 1)
  end.

Definition cmd_HSET (db : DB) (tokens : list string) : M unit :=
  Println "add -x support";;
  if decide (2 < length tokens)%nat then
    wrong ←
      match db with
      | redis_Client r =>
          t1 ← index tokens 1;
          rec ← call (CallExists t1) (r_Exists r [t1]);
          mret (bool_decide (IntCmd_Val rec ≠ 0%Z))
      | fs_JKV_DB f =>
          t1 ← index tokens 1;
          call (CallExists t1) (EXISTS f t1)
      end;
    if wrong : bool then Println WRONGTYPE
    else if decide (4 <= length tokens ∧ (length tokens - 2) mod 2 = 0)%nat then
      hash ← index tokens 1;
      r ← hset_loop db tokens hash ((length tokens - 1) / 2) 0;
      match r return M unit with
      | None => mret ()
      | Some n => print ("(integer) " +:+ pretty n +:+ nl)
      end
    else Println (wrong_args "hset")
  else Println "(nil)".

(** HDEL prints the function-level [value], which nothing has assigned. *)
Definition cmd_HDEL (db : DB) (tokens : list string) : M unit :=
  if decide (length tokens = 2) then
    err ←
      match db with
      | redis_Client r =>
          t1 ← index tokens 1; t2 ← index tokens 2;
          rec ← call (CallHDel t1 t2) (r_HDel r t1 t2);
          mret (IntCmd_Err rec)
      | fs_JKV_DB f =>
          t1 ← index tokens 1; t2 ← index tokens 2;
          call (CallHDel t1 t2) (HDEL f t1 t2)
      end;
    print_nil_or_value err ""
  else Println "(nil)".

Definition cmd_HKEYS (db : DB) (tokens : list string) : M unit :=
  if decide (length tokens = 2) then
    '(values, err) ←
      match db with
      | redis_Client r =>
          t1 ← index tokens 1;
          rec ← call (CallHKeys t1) (r_HKeys r t1);
          mret (StringSliceCmd_Val rec, StringSliceCmd_Err rec)
      | fs_JKV_DB f =>
          t1 ← index tokens 1;
          call (CallHKeys t1) (HKEYS f t1)
      end;
    print_nil_or_list err values
  else Println (wrong_args "hkeys").

Definition print_exists (exists_ : bool) : M unit :=
  if exists_ then Println "(integer) 1" else Println "(integer) 0".

Definition cmd_HEXISTS (db : DB) (tokens : list string) : M unit :=
  if decide (length tokens = 3) then
    exists_ ←
      match db with
      | redis_Client r =>
          t1 ← index tokens 1; t2 ← index tokens 2;
          rec ← call (CallHExists t1 t2) (r_HExists r t1 t2);
          mret (BoolCmd_Val rec)
      | fs_JKV_DB f =>
          t1 ← index tokens 1; t2 ← index tokens 2;
          call (CallHExists t1 t2) (HEXISTS f t1 t2)
      end;
    print_exists exists_
  else Println (wrong_args "exists").

Definition cmd_GET (db : DB) (tokens : list string) : M unit :=
  if decide (length tokens = 2) then
    '(value, err) ←
      match db with
      | redis_Client r =>
          t1 ← index tokens 1;
          rec ← call (CallGet t1) (r_Get r t1);
          mret (StringCmd_Val rec, StringCmd_Err rec)
      | fs_JKV_DB f =>
          t1 ← index tokens 1;
          call (CallGet t1) (GET f t1)
      end;
    print_nil_or_value err value
  else Println "(nil)".

(** The backend write shared by the two modes of SET. *)
Definition do_SET (db : DB) (key value : string) : M (option error) :=
  match db with
  | redis_Client r =>
      rec ← call (CallSet key value) (r_Set r key value);
      mret (StatusCmd_Err rec)
  | fs_JKV_DB f => call (CallSet key value) (SET f key value)
  end.

(** SET.  With [opt_x] the value is read from standard input:
    [string(buf[:n-1])] is the bytes read without the last one. *)
Definition cmd_SET (db : DB) (tokens : list string) (opt_x : bool) : M unit :=
  if opt_x then
    if decide (length tokens = 2) then
      rd ← Stdin_Read;
      let n := String.length (rdata rd) in
      if decide (n = 0) then
        if decide (rerr rd ≠ Some EOF) then
          match rerr rd with
          | Some err => panic (PanicString (Error err))
          | None => panic NilDereference
          end
        else mret ()
      else
        t1 ← index tokens 1;
        err ← do_SET db t1 (substring 0 (n - 1) (rdata rd));
        print_nil_or_OK err
    else Println (wrong_args "set")
  else
    if decide (length tokens = 3) then
      t1 ← index tokens 1; t2 ← index tokens 2;
      err ← do_SET db t1 t2;
      print_nil_or_OK err
    else Println (wrong_args "set").

(** DEL prints the function-level [value], which nothing has assigned. *)
Definition cmd_DEL (db : DB) (tokens : list string) : M unit :=
  if decide (length tokens = 2) then
    err ←
      match db with
      | redis_Client r =>
          t1 ← index tokens 1;
          rec ← call (CallDel t1) (r_Del r [t1]);
          mret (IntCmd_Err rec)
      | fs_JKV_DB f =>
          t1 ← index tokens 1;
          call (CallDel t1) (DEL f t1)
      end;
    print_nil_or_value err ""
  else Println "(nil)".

(** KEYS: the branch of the remote backend takes the error of the reply
    and leaves the function-level [values] nil. *)
Definition cmd_KEYS (db : DB) (tokens : list string) : M unit :=
  if decide (length tokens = 2) then
    '(values, err) ←
      match db with
      | redis_Client r =>
          t1 ← index tokens 1;
          rec ← call (CallKeys t1) (r_Keys r t1);
          mret ([], StringSliceCmd_Err rec)
      | fs_JKV_DB f =>
          t1 ← index tokens 1;
          call (CallKeys t1) (KEYS f t1)
      end;
    print_nil_or_list err values
  else Println (wrong_args "keys").

(** EXISTS: the reply is written by [Printf] without a line end. *)
Definition cmd_EXISTS (db : DB) (tokens : list string) : M unit :=
  if decide (length tokens = 2) then
    nvalues ←
      match db with
      | redis_Client r =>
          t1 ← index tokens 1;
          rec ← call (CallExists t1) (r_Exists r [t1]);
          mret (IntCmd_Val rec)
      | fs_JKV_DB f =>
          t1 ← index tokens 1;
          exists_ ← call (CallExists t1) (EXISTS f t1);
          mret (if exists_ : bool then 1%Z else 0%Z)
      end;
    print ("(integer) " +:+ pretty nvalues)
  else Println (wrong_args "exists").

Definition unknown_command (token : string) : string :=
  "(error) ERR unknown command '" +:+ token +:+ "', with args beginning with:" +:+ nl.

(** The [switch] on the upper-cased first token. *)
Definition dispatch (db : DB) (tokens : list string) (opt_x : bool)
    (token0 : string) : M unit :=
  let verb := ToUpper token0 in
  if decide (verb = "FLUSHDB") then cmd_FLUSHDB db tokens
  else if decide (verb = "HGET") then cmd_HGET db tokens
  else if decide (verb = "HSET") then cmd_HSET db tokens
  else if decide (verb = "HDEL") then cmd_HDEL db tokens
  else if decide (verb = "HKEYS") then cmd_HKEYS db tokens
  else if decide (verb = "HEXISTS") then cmd_HEXISTS db tokens
  else if decide (verb = "GET") then cmd_GET db tokens
  else if decide (verb = "SET") then cmd_SET db tokens opt_x
  else if decide (verb = "DEL") then cmd_DEL db tokens
  else if decide (verb = "KEYS") then cmd_KEYS db tokens
  else if decide (verb = "EXISTS") then cmd_EXISTS db tokens
  else print (unknown_command token0).

Definition ProcessCmd (db : DB) (cmd : string) (opt_x : bool) : M unit :=
  let tokens := Fields cmd in
  if decide (length tokens = 0) then mret ()
  else token0 ← index tokens 0; dispatch db tokens opt_x token0.

(** The earlier revision of the dispatcher, the other source file that
    holds [ProcessCmd].  Its two backends, [*redis.JKV_DB] and [*fs.JKV_DB],
    have the same method set, so one record stands for either, and every
    branch reads as the [*fs.JKV_DB] branch above, but for the reply of
    EXISTS, which is printed with its line end. *)
Definition cmd_EXISTS_0 (f : JKV_DB) (tokens : list string) : M unit :=
  if decide (length tokens = 2) then
    t1 ← index tokens 1;
    exists_ ← call (CallExists t1) (EXISTS f t1);
    print_exists exists_
  else Println (wrong_args "exists").

Definition dispatch_0 (f : JKV_DB) (tokens : list string) (opt_x : bool)
    (token0 : string) : M unit :=
  let db := fs_JKV_DB f in
  let verb := ToUpper token0 in
  if decide (verb = "FLUSHDB") then cmd_FLUSHDB db tokens
  else if decide (verb = "HGET") then cmd_HGET db tokens
  else if decide (verb = "HSET") then cmd_HSET db tokens
  else if decide (verb = "HDEL") then cmd_HDEL db tokens
  else if decide (verb = "HKEYS") then cmd_HKEYS db tokens
  else if decide (verb = "HEXISTS") then cmd_HEXISTS db tokens
  else if decide (verb = "GET") then cmd_GET db tokens
  else if decide (verb = "SET") then cmd_SET db tokens opt_x
  else if decide (verb = "DEL") then cmd_DEL db tokens
  else if decide (verb = "KEYS") then cmd_KEYS db tokens
  else if decide (verb = "EXISTS") then cmd_EXISTS_0 f tokens
  else print (unknown_command token0).

Definition ProcessCmd_0 (f : JKV_DB) (cmd : string) (opt_x : bool) : M unit :=
  let tokens := Fields cmd in
  if decide (length tokens = 0) then mret ()
  else token0 ← index tokens 0; dispatch_0 f tokens opt_x token0.

(** Either revision, with its backend. *)
Inductive Dispatcher :=
  | main_go (db : DB)
  | part_001 (f : JKV_DB).

Definition run (d : Dispatcher) (cmd : string) (opt_x : bool) : M unit :=
  match d with
  | main_go db => ProcessCmd db cmd opt_x
  | part_001 f => ProcessCmd_0 f cmd opt_x
  end.

(** The read loop of [main] in prompt mode:
    [for scanner.Scan() { ProcessCmd(db, scanner.Text(), opt_x); fmt.Printf(prompt) }],
    over the lines the scanner yields; [prompt] is what the [Printf] of
    the prompt writes.  A panic in a command is not recovered: the lines
    after it are never processed. *)
Fixpoint read_loop (d : Dispatcher) (prompt : string) (opt_x : bool)
    (lines : list string) : M unit :=
  match lines with
  | [] => mret ()
  | line :: rest =>
      run d line opt_x;;
      print prompt;;
      read_loop d prompt opt_x rest
  end.

(** The backend of a dispatcher, as the branches shared by the two
    revisions see it, and the [switch] of either revision. *)
Definition backend_of (d : Dispatcher) : DB :=
  match d with
  | main_go db => db
  | part_001 f => fs_JKV_DB f
  end.

Definition the_dispatch (d : Dispatcher) (tokens : list string) (opt_x : bool)
    (token0 : string) : M unit :=
  match d with
  | main_go db => dispatch db tokens opt_x token0
  | part_001 f => dispatch_0 f tokens opt_x token0
  end.

(** The write a SET reaches the backend with, whichever backend it is. *)
Definition backend_SET (d : Dispatcher) (key value : string) (s : S)
    : option error * S :=
  match d with
  | main_go (redis_Client r) =>
      let '(rec, s') := r_Set r key value s in (StatusCmd_Err rec, s')
  | main_go (fs_JKV_DB f) | part_001 f => SET f key value s
  end.

(** The existence query an HSET reaches the backend with. *)
Definition backend_EXISTS (d : Dispatcher) (key : string) (s : S) : bool * S :=
  match d with
  | main_go (redis_Client r) =>
      let '(rec, s') := r_Exists r [key] s in
      (bool_decide (IntCmd_Val rec ≠ 0%Z), s')
  | main_go (fs_JKV_DB f) | part_001 f => EXISTS f key s
  end.

End Dispatcher.

Arguments RedisClient : clear implicits.
Arguments JKV_DB : clear implicits.
Arguments DB : clear implicits.
Arguments World : clear implicits.
Arguments Result : clear implicits.
Arguments M : clear implicits.
Arguments Done {S A} a w.
Arguments Panic {S A} v w.
Arguments Dispatcher : clear implicits.

End cli.

(** ** Vocabulary of the statements *)

(** A single file name: not empty, not [.] or [..], and without a
    separator or a NUL byte. *)
Fixpoint has_sep (s : string) : bool :=
  match s with
  | EmptyString => false
  | String c s' => Ascii.eqb c "/" || has_sep s'
  end.

Definition file_name (k : string) : bool :=
  negb (has_sep k) && negb (os.has_nul k)
  && bool_decide (k ≠ "" ∧ k ≠ "." ∧ k ≠ "..").

Definition is_dir (o : option os.node) : bool :=
  match o with
  | Some (os.Dir _) => true
  | _ => false
  end.

(** The verbs of the dispatcher. *)
Definition verbs : list string :=
  ["FLUSHDB"; "HGET"; "HSET"; "HDEL"; "HKEYS"; "HEXISTS";
   "GET"; "SET"; "DEL"; "KEYS"; "EXISTS"].

(** The arity column of the command table of the design document: the
    token counts a verb is documented to take ([opt_x] is the stream mode
    of SET). *)
Definition expected_arity (verb : string) (opt_x : bool) (n : nat) : bool :=
  if decide (verb = "FLUSHDB") then bool_decide (n = 1)
  else if decide (verb = "HGET") then bool_decide (n = 3)
  else if decide (verb = "HSET") then bool_decide (4 <= n ∧ (n - 2) mod 2 = 0)%nat
  else if decide (verb = "HDEL") then bool_decide (n = 2)
  else if decide (verb = "HKEYS") then bool_decide (n = 2)
  else if decide (verb = "HEXISTS") then bool_decide (n = 3)
  else if decide (verb = "GET") then bool_decide (n = 2)
  else if decide (verb = "SET") then bool_decide (n = if opt_x then 2 else 3)
  else if decide (verb = "DEL") then bool_decide (n = 2)
  else if decide (verb = "KEYS") then bool_decide (n = 2)
  else if decide (verb = "EXISTS") then bool_decide (n = 2)
  else true.

(** The reply to a wrong token count, for the verbs other than HSET. *)
Definition mismatch_reply (verb : string) : string :=
  if decide (verb = "FLUSHDB") then "(error) ERR syntax error"
  else if decide (verb = "HKEYS") then cli.wrong_args "hkeys"
  else if decide (verb = "HEXISTS") then cli.wrong_args "exists"
  else if decide (verb = "SET") then cli.wrong_args "set"
  else if decide (verb = "KEYS") then cli.wrong_args "keys"
  else if decide (verb = "EXISTS") then cli.wrong_args "exists"
  else "(nil)".

(** ** Stores and backends of the examples *)

(** The default store, closed; the same store opened on an empty tree;
    with the scalars a = 1 and b = 2; and with the hash h holding the
    field f, put there through package [os]. *)
Definition client0 : fs.Client :=
  fs.NewClient {| fs.Addr := fs.DEFAULT_DB; fs.Password := ""; fs.DB := 0 |}.
Definition client1 : fs.Client := (fs.Open client0 (os.Dir ∅)).1.2.
Definition tree1 : os.node := (fs.Open client0 (os.Dir ∅)).2.
Definition tree2 : os.node :=
  (fs.Set_ client1 "b" "2" (fs.Set_ client1 "a" "1" tree1).2).2.
Definition tree3 : os.node :=
  (os.WriteFile "jkv_db/hashes/h/f" "v" (os.MkdirAll "jkv_db/hashes/h" tree2).2).2.

(** A backend for the examples of the dispatcher: scalars in a finite
    map, no hashes. *)
Definition mem_db : cli.JKV_DB (gmap string string) := {|
  cli.FLUSHDB := λ _, ∅;
  cli.HGET := λ _ _ s, (("", Some (ErrorString "no such hash")), s);
  cli.EXISTS := λ k s, (bool_decide (is_Some (s !! k)), s);
  cli.HSET := λ _ _ _ s, (Some (ErrorString "hashes are not kept"), s);
  cli.HDEL := λ _ _ s, (Some (ErrorString "no such hash"), s);
  cli.HKEYS := λ _ s, (([], Some (ErrorString "no such hash")), s);
  cli.HEXISTS := λ _ _ s, (false, s);
  cli.GET := λ k s,
    (match s !! k with
     | Some v => (v, None)
     | None => ("", Some (ErrorString "no such key"))
     end, s);
  cli.SET := λ k v s, (None, <[k := v]> s);
  cli.DEL := λ k s,
    (match s !! k with
     | Some _ => None
     | None => Some (ErrorString "no such key")
     end, delete k s);
  cli.KEYS := λ _ s, (((map_to_list s).*1, None), s) |}.

Definition world0 (input : list cli.ReadResult) : cli.World (gmap string string) :=
  {| cli.store := ∅; cli.stdout := ""; cli.stdin := input; cli.calls := [] |}.

(** A read of standard input that fails with nothing read: standard
    input is a directory. *)
Definition failed_read : cli.ReadResult :=
  {| cli.rdata := "";
     cli.rerr := Some (PathError "read" "/dev/stdin" EISDIR) |}.

(** A read that fails with nothing read after the scanner has read its
    lines: standard input is a file on a device that fails, or on a
    network mount that goes away, after the first read. *)
Definition eio_read : cli.ReadResult :=
  {| cli.rdata := "";
     cli.rerr := Some (PathError "read" "/dev/stdin" EIO) |}.

(** The bytes of a line typed at the terminal: 42 and the line end. *)
Definition typed_42 : cli.ReadResult :=
  {| cli.rdata := "42" +:+ cli.nl; cli.rerr := None |}.

(** ** Vocabulary of the further properties *)

(** The tree [t'] keeps every directory of [t]. *)
Definition keeps_dirs (t t' : os.node) : Prop :=
  ∀ s, is_dir (os.lookup_node s t) = true → is_dir (os.lookup_node s t') = true.

(** The scalars directory of the store is the directory [m] at path [p]. *)
Definition scalars_at (c : fs.Client) (t : os.node) (p : list string)
    (m : gmap string os.node) : Prop :=
  os.resolve (fs.DBDir c +:+ "/scalars") t = inr p
  ∧ os.lookup_node p t = Some (os.Dir m).

(** The same for the hashes directory. *)
Definition hashes_at (c : fs.Client) (t : os.node) (q : list string)
    (m : gmap string os.node) : Prop :=
  os.resolve (fs.DBDir c +:+ "/hashes") t = inr q
  ∧ os.lookup_node q t = Some (os.Dir m).

(** A line of white space only. *)
Fixpoint all_space (s : string) : bool :=
  match s with
  | EmptyString => true
  | String c s' => cli.asciiSpace c && all_space s'
  end.

(** The field/value tokens of an HSET, pair by pair. *)
Fixpoint flatten (pairs : list (string * string)) : list string :=
  match pairs with
  | [] => []
  | (k, v) :: rest => k :: v :: flatten rest
  end.

(** A line that takes neither the HDEL branch with two tokens nor the
    stream mode of SET with two tokens. *)
Definition plain_line (tokens : list string) (opt_x : bool) : bool :=
  match tokens with
  | [t0; _] =>
      negb (bool_decide (cli.ToUpper t0 = "HDEL"))
      && negb (opt_x && bool_decide (cli.ToUpper t0 = "SET"))
  | _ => true
  end.

Section BackendViews.
Context {S : Type}.

(** The calls of a dispatcher on its backend, as value and error. *)
Definition backend_GET (d : cli.Dispatcher S) (key : string) (s : S)
    : (string * option error) * S :=
  match d with
  | cli.main_go (cli.redis_Client r) =>
      let '(rec, s') := cli.r_Get r key s in
      ((jkv.StringCmd_Val rec, jkv.StringCmd_Err rec), s')
  | cli.main_go (cli.fs_JKV_DB f) | cli.part_001 f => cli.GET f key s
  end.

Definition backend_DEL (d : cli.Dispatcher S) (key : string) (s : S)
    : option error * S :=
  match d with
  | cli.main_go (cli.redis_Client r) =>
      let '(rec, s') := cli.r_Del r [key] s in (jkv.IntCmd_Err rec, s')
  | cli.main_go (cli.fs_JKV_DB f) | cli.part_001 f => cli.DEL f key s
  end.

Definition backend_HSET (d : cli.Dispatcher S) (hash key value : string) (s : S)
    : option error * S :=
  match d with
  | cli.main_go (cli.redis_Client r) =>
      let '(rec, s') := cli.r_HSet r hash key value s in (jkv.IntCmd_Err rec, s')
  | cli.main_go (cli.fs_JKV_DB f) | cli.part_001 f => cli.HSET f hash key value s
  end.

(** The writes of an HSET over its pairs, in order, up to the first one
    that fails: the calls made, the store left, and that error. *)
Fixpoint hset_pairs (d : cli.Dispatcher S) (hash : string)
    (pairs : list (string * string)) (s : S) : list cli.Call * S * option error :=
  match pairs with
  | [] => ([], s, None)
  | (k, v) :: rest =>
      match backend_HSET d hash k v s with
      | (Some err, s') => ([cli.CallHSet hash k v], s', Some err)
      | (None, s') =>
          let '(cs, s'', err) := hset_pairs d hash rest s' in
          (cli.CallHSet hash k v :: cs, s'', err)
      end
  end.

(** [w'] is [w] with more output and more calls, and the same input. *)
Definition extends (w w' : cli.World S) : Prop :=
  cli.stdin w' = cli.stdin w
  ∧ (∃ out, cli.stdout w' = cli.stdout w +:+ out)
  ∧ (∃ cs, cli.calls w' = cli.calls w ++ cs).

(** A computation that does not panic, and then [extends] the world. *)
Definition returns {A} (m : cli.M S A) : Prop :=
  ∀ w, ∃ a w', m w = cli.Done a w' ∧ extends w w'.

End BackendViews.

(** ** [main] of [jkv-cli/main.go] *)

(** The name the program was started under: [os.Args[0]], or its last
    component when it holds a separator. *)
Definition program_name (arg0 : string) : string :=
  if has_sep arg0 then default "" (last (os.split arg0)) else arg0.

(** [strings.Join]. *)
Fixpoint Join (elems : list string) (sep : string) : string :=
  match elems with
  | [] => ""
  | e :: rest =>
      match rest with
      | [] => e
      | _ :: _ => e +:+ sep +:+ Join rest sep
      end
  end.

(** Single-shot mode: [main] hands the arguments left after the flags,
    joined by a space, to [ProcessCmd]. *)
Definition single_shot {S : Type} (d : cli.Dispatcher S) (args : list string)
    (opt_x : bool) : cli.M S unit :=
  cli.run d (Join args " ") opt_x.

(** ** Further stores and backends of the examples *)

(** The hash h with a second field; a directory that holds a store with
    one scalar; and a remote backend over a finite map of scalars. *)
Definition tree4 : os.node := (os.WriteFile "jkv_db/hashes/h/g" "w" tree3).2.

Definition entries5 : gmap string os.node :=
  {[ "jkv_db" := os.Dir {[ "scalars" := os.Dir {[ "a" := os.File "1" ]} ]} ]}.

Definition mem_redis : cli.RedisClient (gmap string string) := {|
  cli.r_FlushDB := λ _, ∅;
  cli.r_HGet := λ _ _ s, (jkv.NewStringCmd "" (Some (ErrorString "redis: nil")), s);
  cli.r_Exists := λ keys s,
    (jkv.NewIntCmd
       (Z.of_nat (length (filter (λ k, is_Some (s !! k)) keys))) None, s);
  cli.r_HSet := λ _ _ _ s, (jkv.NewIntCmd 0 (Some (ErrorString "hashes are not kept")), s);
  cli.r_HDel := λ _ _ s, (jkv.NewIntCmd 0 None, s);
  cli.r_HKeys := λ _ s, (jkv.NewStringSliceCmd [] None, s);
  cli.r_HExists := λ _ _ s, (jkv.NewBoolCmd false None, s);
  cli.r_Get := λ k s,
    (match s !! k with
     | Some v => jkv.NewStringCmd v None
     | None => jkv.NewStringCmd "" (Some (ErrorString "redis: nil"))
     end, s);
  cli.r_Set := λ k v s, (jkv.NewStatusCmd "OK" None, <[k := v]> s);
  cli.r_Del := λ keys s,
    (jkv.NewIntCmd
       (Z.of_nat (length (filter (λ k, is_Some (s !! k)) keys))) None,
     foldr delete s keys);
  cli.r_Keys := λ _ s, (jkv.NewStringSliceCmd (map_to_list s).*1 None, s) |}.

(** * Properties *)

Import jkv os fs cli.

(** The tokens and the verb of a line, and the paths of the default store. *)
Example Fields_example : Fields "  hset beta   f1 x " = ["hset"; "beta"; "f1"; "x"].
Proof. reflexivity. Qed.

Example ToUpper_example : ToUpper "hDel" = "HDEL".
Proof. reflexivity. Qed.

Example split_example : split "jkv_db/scalars/" = ["jkv_db"; "scalars"; ""].
Proof. reflexivity. Qed.

Example Open_example :
  Open client0 (Dir ∅) = (None, client1, tree1)
  ∧ IsOpen client1 = true
  ∧ Stat (ScalarDir client1) tree1 = (true, None)
  ∧ Stat (HashDir client1) tree1 = (true, None)
  ∧ Keys client1 "*" tree3 = NewStringSliceCmd ["a"; "b"; "h"] None
  ∧ HGet client1 "h" "f" tree3 = NewStringCmd "v" None.
Proof. repeat split; by vm_compute. Qed.

(** ** Paths and trees *)

Section PathLemmas.

Lemma append_cons x (a b : string) : String x a +:+ b = String x (a +:+ b).
Proof. done. Qed.

Lemma append_assoc (a b c : string) : (a +:+ b) +:+ c = a +:+ b +:+ c.
Proof. induction a as [|x a IH]; [done | by rewrite !append_cons, IH]. Qed.

Lemma split_nonempty s : split s ≠ [].
Proof.
  destruct s as [|c s]; simpl; [done |].
  destruct (Ascii.eqb c "/"); [done |]. by destruct (split s).
Qed.

Lemma split_app_sep a b : split (a +:+ "/" +:+ b) = split a ++ split b.
Proof.
  induction a as [|c a IH]; [done |].
  change (String c a +:+ "/" +:+ b) with (String c (a +:+ "/" +:+ b)).
  cbn [split]. rewrite IH.
  destruct (Ascii.eqb c "/"); [done |].
  destruct (split a) as [|h t] eqn:E; [by apply split_nonempty in E | done].
Qed.

Lemma split_no_sep k : has_sep k = false → split k = [k].
Proof.
  induction k as [|c k IH]; simpl; [done |].
  destruct (Ascii.eqb c "/"); simpl; [done |]. intros H. by rewrite IH.
Qed.

Lemma has_nul_app a b : has_nul (a +:+ b) = has_nul a || has_nul b.
Proof.
  induction a as [|c a IH]; [done |].
  rewrite append_cons. simpl. by rewrite IH, orb_assoc.
Qed.

Lemma lookup_node_app p q n :
  lookup_node (p ++ q) n = lookup_node p n ≫= lookup_node q.
Proof.
  revert n. induction p as [|c p IH]; intros n; simpl; [done |].
  destruct n as [d | m]; [done |].
  destruct (m !! c) as [n' |]; simpl; [apply IH | done].
Qed.

Lemma walk_app root s l1 l2 :
  walk root s (l1 ++ l2) =
    match walk root s l1 with
    | inr s' => walk root s' l2
    | inl e => inl e
    end.
Proof.
  revert s. induction l1 as [|c l1 IH]; intros s; simpl; [done |].
  destruct (lookup_node s root) as [[d | m] |]; try done.
  repeat case_decide; apply IH.
Qed.

Lemma file_name_spec k :
  file_name k = true →
  has_sep k = false ∧ has_nul k = false ∧ k ≠ "" ∧ k ≠ "." ∧ k ≠ "..".
Proof.
  unfold file_name. rewrite !andb_true_iff, !negb_true_iff, bool_decide_eq_true.
  tauto.
Qed.

(** One more name below a directory that the walk has reached. *)
Lemma walk_name_iff root s k q :
  file_name k = true →
  walk root s [k] = inr q ↔ (∃ m, lookup_node s root = Some (Dir m)) ∧ q = s ++ [k].
Proof.
  intros Hk. apply file_name_spec in Hk as (_ & _ & H1 & H2 & H3).
  simpl. destruct (lookup_node s root) as [[d | m] |].
  - split; [done | by intros [[? [=]] _]].
  - rewrite decide_False by (intros [? | ?]; congruence).
    rewrite decide_False by done.
    split; [intros [= <-]; eauto | by intros [_ ->]].
  - split; [done | by intros [[? [=]] _]].
Qed.

Lemma walk_name root s k m :
  file_name k = true →
  lookup_node s root = Some (Dir m) →
  walk root s [k] = inr (s ++ [k]).
Proof. intros Hk Hs. apply walk_name_iff; eauto. Qed.

(** Reading and writing below an existing directory. *)
Lemma set_node_cons x rest new m :
  rest ≠ [] →
  set_node (x :: rest) new (Dir m) = Dir (alter (set_node rest new) x m).
Proof. by destruct rest. Qed.

Lemma lookup_set_node p c new n m :
  lookup_node p n = Some (Dir m) →
  lookup_node p (set_node (p ++ [c]) new n) = Some (Dir (partial_alter (λ _, new) c m)).
Proof.
  revert n. induction p as [|x p IH]; intros n H; simpl in H.
  - by simplify_eq.
  - destruct n as [d | m0]; [done |].
    destruct (m0 !! x) as [n' |] eqn:E; simpl in H; [| done].
    change ((x :: p) ++ [c]) with (x :: (p ++ [c])).
    rewrite set_node_cons by (by destruct p).
    simpl. rewrite lookup_alter_eq, E. simpl. by apply IH.
Qed.

Lemma lookup_set_node_child p c new n m :
  lookup_node p n = Some (Dir m) →
  lookup_node (p ++ [c]) (set_node (p ++ [c]) new n) = new.
Proof.
  intros H. rewrite lookup_node_app, (lookup_set_node _ _ _ _ _ H). simpl.
  rewrite lookup_partial_alter_eq. by destruct new.
Qed.


(** Putting a file (or nothing) where no directory was leaves every
    directory a directory, and makes no new one. *)
Lemma set_node_is_dir q new n s :
  is_dir (lookup_node q n) = false → is_dir new = false →
  is_dir (lookup_node s (set_node q new n)) = is_dir (lookup_node s n).
Proof.
  intros Hold Hnew. revert n s Hold.
  induction q as [|c rest IH]; intros n s Hold; [done |].
  destruct n as [d | m]; [done |].
  destruct (decide (rest = [])) as [-> | Hrest].
  - simpl in *. destruct s as [|y s']; [done |]. simpl.
    destruct (decide (y = c)) as [-> | Hy].
    + rewrite lookup_partial_alter_eq.
      destruct (m !! c) as [[d | m'] |], new as [[d' | m''] |];
        simpl in *; try done; by destruct s'.
    + by rewrite lookup_partial_alter_ne.
  - rewrite set_node_cons by done. destruct s as [|y s']; [done |]. simpl.
    destruct (decide (y = c)) as [-> | Hy].
    + rewrite lookup_alter_eq. simpl in Hold.
      destruct (m !! c) as [n1 |]; simpl in *; [by apply IH | done].
    + by rewrite lookup_alter_ne.
Qed.

(** A walk that succeeds depends on the tree only through which paths
    are directories. *)
Lemma walk_is_dir fs fs' s comps p :
  (∀ s, is_dir (lookup_node s fs') = is_dir (lookup_node s fs)) →
  walk fs s comps = inr p → walk fs' s comps = inr p.
Proof.
  intros Hd. revert s. induction comps as [|c rest IH]; intros s; simpl; [done |].
  specialize (Hd s).
  destruct (lookup_node s fs) as [[d | m] |]; try done.
  destruct (lookup_node s fs') as [[d' | m'] |]; try done.
  repeat case_decide; apply IH.
Qed.

(** Unlinking never makes a directory appear. *)
Lemma unlink_is_dir q n s :
  is_dir (lookup_node s (set_node q None n)) = true →
  is_dir (lookup_node s n) = true.
Proof.
  revert n s. induction q as [|c rest IH]; intros n s; [done |].
  destruct n as [d | m]; [done |].
  destruct (decide (rest = [])) as [-> | Hrest].
  - simpl. destruct s as [|y s']; [done |]. simpl.
    destruct (decide (y = c)) as [-> | Hy].
    + by rewrite lookup_partial_alter_eq.
    + by rewrite lookup_partial_alter_ne.
  - rewrite set_node_cons by done. destruct s as [|y s']; [done |]. simpl.
    destruct (decide (y = c)) as [-> | Hy].
    + rewrite lookup_alter_eq.
      destruct (m !! c) as [n1 |]; simpl; [apply IH | done].
    + by rewrite lookup_alter_ne.
Qed.

Lemma walk_unlink fs q s comps p :
  walk fs s comps = inr p →
  walk (set_node q None fs) s comps = inr p
  ∨ ∃ e, walk (set_node q None fs) s comps = inl e.
Proof.
  revert s. induction comps as [|c rest IH]; intros s; simpl; [by left |].
  pose proof (unlink_is_dir q fs s) as Hd.
  destruct (lookup_node s (set_node q None fs)) as [[d' | m'] |]; try by (right; eauto).
  simpl in Hd. specialize (Hd eq_refl).
  destruct (lookup_node s fs) as [[d | m] |]; try done.
  repeat case_decide; apply IH.
Qed.


Lemma append_empty a b : a +:+ b = "" → a = "" ∧ b = "".
Proof. destruct a; [done | discriminate]. Qed.

(** The path of a name below a directory. *)
Lemma resolve_child X k fs p m :
  resolve X fs = inr p → lookup_node p fs = Some (Dir m) →
  file_name k = true →
  resolve (X +:+ "/" +:+ k) fs = inr (p ++ [k]).
Proof.
  unfold resolve. intros HX Hp Hk.
  pose proof (file_name_spec _ Hk) as (Hsep & Hnul & Hne & _).
  rewrite !has_nul_app, Hnul.
  destruct (has_nul X); [done |]. simpl.
  case_decide as HX0; [done |].
  rewrite decide_False by (intros [_ [=]]%append_empty).
  rewrite split_app_sep, walk_app, HX, (split_no_sep _ Hsep).
  by eapply walk_name.
Qed.

(** And back: a path that resolves to an entry of that name. *)
Lemma resolve_child_inv X k fs q :
  X ≠ "" → file_name k = true →
  resolve (X +:+ "/" +:+ k) fs = inr q →
  ∃ p m, resolve X fs = inr p ∧ lookup_node p fs = Some (Dir m) ∧ q = p ++ [k].
Proof.
  unfold resolve. intros HX0 Hk.
  pose proof (file_name_spec _ Hk) as (Hsep & Hnul & Hne & Hdot & Hdots).
  rewrite !has_nul_app.
  destruct (has_nul X); [done |]. simpl. rewrite Hnul.
  rewrite decide_False by (intros [_ [=]]%append_empty).
  rewrite decide_False by done.
  rewrite split_app_sep, walk_app, (split_no_sep _ Hsep).
  destruct (walk fs [] (split X)) as [e | p]; [done |].
  intros [[m Hm] ->]%walk_name_iff; eauto.
Qed.

(** A path with a trailing separator resolves to a directory. *)
Lemma resolve_slash_inv X fs p :
  X ≠ "" → resolve (X +:+ "/") fs = inr p →
  resolve X fs = inr p ∧ ∃ m, lookup_node p fs = Some (Dir m).
Proof.
  unfold resolve. intros HX0.
  rewrite has_nul_app. destruct (has_nul X); [done |]. simpl.
  rewrite decide_False by (intros [_ [=]]%append_empty).
  rewrite decide_False by done.
  change (X +:+ "/") with (X +:+ "/" +:+ "").
  rewrite split_app_sep, walk_app.
  destruct (walk fs [] (split X)) as [e | s]; [done |]. simpl.
  destruct (lookup_node s fs) as [[d | m] |] eqn:E; try done.
  intros [= <-]. eauto.
Qed.

Lemma resolve_is_dir fs fs' X p :
  (∀ s, is_dir (lookup_node s fs') = is_dir (lookup_node s fs)) →
  resolve X fs = inr p → resolve X fs' = inr p.
Proof.
  unfold resolve. intros Hd. destruct (has_nul X); [done |].
  case_decide; [done |]. by apply walk_is_dir.
Qed.

Lemma resolve_unlink fs q X p :
  resolve X fs = inr p →
  resolve X (set_node q None fs) = inr p ∨ ∃ e, resolve X (set_node q None fs) = inl e.
Proof.
  unfold resolve. destruct (has_nul X); [done |].
  case_decide; [done |]. apply walk_unlink.
Qed.

Lemma length_sort_names l : length (sort_names l) = length l.
Proof. unfold sort_names. by rewrite merge_sort_Permutation. Qed.

Lemma elem_of_sort_names f l : f ∈ sort_names l ↔ f ∈ l.
Proof. unfold sort_names. by rewrite merge_sort_Permutation. Qed.

Lemma length_names (m : gmap string node) :
  length (sort_names ((map_to_list m).*1)) = size m.
Proof. by rewrite length_sort_names, length_fmap, length_map_to_list. Qed.

Lemma elem_of_names f (m : gmap string node) :
  f ∈ sort_names ((map_to_list m).*1) ↔ is_Some (m !! f).
Proof.
  rewrite elem_of_sort_names, list_elem_of_fmap. split.
  - intros [[k x] [-> Hx]]. apply elem_of_map_to_list in Hx. eauto.
  - intros [x Hx]. exists (f, x). by rewrite elem_of_map_to_list.
Qed.

Lemma endsWithDot_no_sep k :
  has_sep k = false → k ≠ "." → endsWithDot k = false.
Proof.
  induction k as [|c k IH]; [done |].
  intros Hsep Hdot. simpl in Hsep. apply orb_false_iff in Hsep as [Hc Hk].
  destruct k as [|d k'].
  - simpl. apply Ascii.eqb_neq. intros ->. done.
  - destruct k' as [|e k''].
    + simpl. by rewrite Hc.
    + change (endsWithDot (String d (String e k'')) = false). by apply IH.
Qed.

Lemma endsWithDot_child Y k :
  file_name k = true → endsWithDot (Y +:+ "/" +:+ k) = false.
Proof.
  intros Hk. apply file_name_spec in Hk as (Hsep & _ & Hne & Hdot & _).
  assert (endsWithDot ("/" +:+ k) = false) as Hbase.
  { destruct k as [|d k']; [done |].
    destruct k' as [|e k''].
    - simpl. apply Ascii.eqb_neq. by intros ->.
    - change (endsWithDot (String d (String e k'')) = false).
      by apply endsWithDot_no_sep. }
  induction Y as [|y Y IH]; [done |].
  rewrite append_cons.
  destruct (Y +:+ "/" +:+ k) as [|a [|b T]] eqn:E.
  - by apply append_empty in E as [_ [=]].
  - destruct Y as [|y' Y'].
    + injection E as _ E. done.
    + rewrite append_cons in E. injection E as _ E.
      by apply append_empty in E as [_ [=]].
  - done.
Qed.

End PathLemmas.

(** ** The filesystem backend *)

Section BackendLemmas.

Lemma Stat_dir_inv name t :
  Stat name t = (true, None) →
  ∃ p m, resolve name t = inr p ∧ lookup_node p t = Some (Dir m).
Proof.
  unfold Stat. destruct (resolve name t) as [e | p]; [done |].
  destruct (lookup_node p t) as [[d | m] |] eqn:E; try done. eauto.
Qed.

Lemma scalars_nonempty c : DBDir c +:+ "/scalars" ≠ "".
Proof. by intros [_ [=]]%append_empty. Qed.

Lemma hashes_nonempty c : DBDir c +:+ "/hashes" ≠ "".
Proof. by intros [_ [=]]%append_empty. Qed.

Lemma ScalarDir_slash c : ScalarDir c = (DBDir c +:+ "/scalars") +:+ "/".
Proof. unfold ScalarDir. by rewrite append_assoc. Qed.

Lemma HashDir_slash c : HashDir c = (DBDir c +:+ "/hashes") +:+ "/".
Proof. unfold HashDir. by rewrite append_assoc. Qed.

Lemma scalar_path c k : ScalarDir c +:+ k = (DBDir c +:+ "/scalars") +:+ "/" +:+ k.
Proof. unfold ScalarDir. by rewrite !append_assoc. Qed.

Lemma scalar_path' c k :
  DBDir c +:+ "/scalars/" +:+ k = (DBDir c +:+ "/scalars") +:+ "/" +:+ k.
Proof. by rewrite !append_assoc. Qed.

Lemma is_dir_Some o : is_dir o = true → ∃ m, o = Some (Dir m).
Proof. destruct o as [[d | m] |]; try done. eauto. Qed.

Lemma field_path c hash key :
  HashDir c +:+ hash +:+ "/" +:+ key = (HashDir c +:+ hash) +:+ "/" +:+ key.
Proof. by rewrite append_assoc. Qed.

Lemma hash_path c hash :
  HashDir c +:+ hash = (DBDir c +:+ "/hashes") +:+ "/" +:+ hash.
Proof. unfold HashDir. by rewrite !append_assoc. Qed.

Lemma hash_path_nonempty c hash : HashDir c +:+ hash ≠ "".
Proof. unfold HashDir. by intros [[_ [=]]%append_empty _]%append_empty. Qed.

(** What the field being present gives. *)
Lemma field_present c hash key t :
  file_name hash = true → file_name key = true →
  Stat (HashDir c +:+ hash +:+ "/" +:+ key) t = (false, None) →
  ∃ p0 m0 m d,
    resolve (DBDir c +:+ "/hashes") t = inr p0
    ∧ lookup_node p0 t = Some (Dir m0)
    ∧ resolve (HashDir c +:+ hash) t = inr (p0 ++ [hash])
    ∧ lookup_node (p0 ++ [hash]) t = Some (Dir m)
    ∧ m !! key = Some (File d).
Proof.
  intros Hh Hk. rewrite field_path. unfold Stat.
  destruct (resolve _ t) as [e | q] eqn:Hq; [done |].
  destruct (lookup_node q t) as [[d | m'] |] eqn:Hl; try done. intros _.
  apply resolve_child_inv in Hq as (p & m & Hp & Hm & ->);
    [| apply hash_path_nonempty | done].
  pose proof Hp as Hp'. rewrite hash_path in Hp'.
  apply resolve_child_inv in Hp' as (p0 & m0 & Hp0 & Hm0 & ->);
    [| apply hashes_nonempty | done].
  rewrite lookup_node_app, Hm in Hl. simpl in Hl.
  destruct (m !! key) as [n |] eqn:E; [| done]. simpl in Hl. simplify_eq.
  eauto 10.
Qed.

End BackendLemmas.


(** C1 (first half, which holds): on an open store, when [os.Stat] finds
    the name among the scalars, [HSet] fails with the type conflict and
    writes nothing. *)
Lemma HSet_type_conflict (c : Client) (hash key value : string) (t : node) :
  IsOpen c = true →
  (Stat (ScalarDir c +:+ hash) t).2 = None →
  HSet c hash key value t = Returned (NewIntCmd 0 (Some (scalarExists hash)), t).
Proof.
  intros Hopen Hstat. unfold HSet, Exists. rewrite Hopen.
  by destruct (Stat (ScalarDir c +:+ hash) t) as [b [err |]].
Qed.

(** C1 (second half, which the code breaks): a freshly opened store has no
    scalar named h, and [HSet] of the field f of h returns the error of
    the existence check; no hash directory is made. *)
Lemma HSet_fresh_hash_fails :
  HSet client1 "h" "f" "v" tree1
  = Returned (NewIntCmd 0 (Some (PathError "stat" "jkv_db/scalars/h" ENOENT)), tree1)
  ∧ Stat "jkv_db/hashes/h" tree1
    = (false, Some (PathError "stat" "jkv_db/hashes/h" ENOENT)).
Proof. split; by vm_compute. Qed.

(** C1: the claim is that [HSet] fails with a type conflict when a scalar
    of that name exists and otherwise creates the hash, writes the field
    and returns without error.  The code never gets to the write: whatever
    the store, the arguments and the tree, [HSet] returns an error and
    leaves the tree as it was. *)
Theorem HSet_never_writes (c : Client) (hash key value : string) (t : node) :
  ∃ err, HSet c hash key value t = Returned (NewIntCmd 0 (Some err), t).
Proof.
  unfold HSet, Exists. destruct (IsOpen c); [| by eexists].
  destruct (Stat (ScalarDir c +:+ hash) t) as [b [err |]]; by eexists.
Qed.

(** C2, as the claim states it, fails: on the closed default store that
    holds the scalars a and b, [Keys] lists them with no error, [Exists]
    answers 0 with no error, and [FlushDB] removes the tree. *)
Lemma closed_store_still_serves :
  IsOpen client0 = false
  ∧ Keys client0 "*" tree2 = NewStringSliceCmd ["a"; "b"] None
  ∧ Exists client0 ["a"] tree2 = Returned (NewIntCmd 0 None)
  ∧ (FlushDB client0 tree2).2 = Dir ∅.
Proof. repeat split; by vm_compute. Qed.

(** C2, amended: while the store is closed, [Get], [Set], [Del], [HGet],
    [HSet], [HDel], [HKeys] and [HExists] fail with the error "DB is not
    open", return the zero value and leave the tree untouched; [FlushDB]
    has no error to return and does to the tree what it does on an open
    store. *)
Theorem closed_store_not_open (c : Client) (t : node) :
  IsOpen c = false →
  (∀ key, Get c key t = NewStringCmd "" (Some notOpen))
  ∧ (∀ key value, Set_ c key value t = (NewStatusCmd "" (Some notOpen), t))
  ∧ (∀ keys, Del c keys t = Returned (NewIntCmd 0 (Some notOpen), t))
  ∧ (∀ hash key, HGet c hash key t = NewStringCmd "" (Some notOpen))
  ∧ (∀ hash key value,
       HSet c hash key value t = Returned (NewIntCmd 0 (Some notOpen), t))
  ∧ (∀ hash key, HDel c hash key t = (NewIntCmd 0 (Some notOpen), t))
  ∧ (∀ hash, HKeys c hash t = NewStringSliceCmd [] (Some notOpen))
  ∧ (∀ hash key, HExists c hash key t = NewBoolCmd false (Some notOpen))
  ∧ FlushDB c t = (c, (FlushDB (set_IsOpen true c) t).2).
Proof.
  intros H.
  unfold Get, Set_, Del, HGet, HSet, HDel, HKeys, HExists, FlushDB.
  by rewrite H.
Qed.

Lemma closed_store_not_open_witness :
  (∀ key, Get client0 key tree2 = NewStringCmd "" (Some notOpen))
  ∧ (∀ key value, Set_ client0 key value tree2 = (NewStatusCmd "" (Some notOpen), tree2))
  ∧ (∀ keys, Del client0 keys tree2 = Returned (NewIntCmd 0 (Some notOpen), tree2))
  ∧ (∀ hash key, HGet client0 hash key tree2 = NewStringCmd "" (Some notOpen))
  ∧ (∀ hash key value,
       HSet client0 hash key value tree2 = Returned (NewIntCmd 0 (Some notOpen), tree2))
  ∧ (∀ hash key, HDel client0 hash key tree2 = (NewIntCmd 0 (Some notOpen), tree2))
  ∧ (∀ hash, HKeys client0 hash tree2 = NewStringSliceCmd [] (Some notOpen))
  ∧ (∀ hash key, HExists client0 hash key tree2 = NewBoolCmd false (Some notOpen))
  ∧ FlushDB client0 tree2 = (client0, (FlushDB (set_IsOpen true client0) tree2).2).
Proof. apply (closed_store_not_open client0 tree2). reflexivity. Defined.

(** [Del] looks at its first key only: the keys after it change the count
    and nothing else. *)
Lemma Del_first_key_only (c : Client) (key0 : string) (keys : list string) (t : node) :
  IsOpen c = true →
  Del c (key0 :: keys) t
  = Returned (NewIntCmd (Z.of_nat (Datatypes.S (length keys)))
                        (Remove (ScalarDir c +:+ key0) t).1,
              (Remove (ScalarDir c +:+ key0) t).2).
Proof.
  intros Hopen. unfold Del. rewrite Hopen.
  by destruct (Remove (ScalarDir c +:+ key0) t).
Qed.

(** C5: the claim is that [Del] removes every key of its argument list.
    On the open store that holds the scalars a and b, [Del] of a and b
    returns the count 2 with no error, and has removed a only: b still
    reads 2. *)
Theorem Del_removes_only_first_key :
  ∃ t', Del client1 ["a"; "b"] tree2 = Returned (NewIntCmd 2 None, t')
    ∧ Get client1 "a" t'
      = NewStringCmd "" (Some (PathError "open" "jkv_db/scalars/a" ENOENT))
    ∧ Get client1 "b" t' = NewStringCmd "2" None.
Proof. eexists. split; [by vm_compute |]. split; by vm_compute. Qed.

(** C6, as the claim states it, fails: on the freshly opened store the key
    a/b cannot be set (there is no directory a among the scalars) nor read
    back; and once [FlushDB] has removed the tree of a store that stays
    open, no key can. *)
Lemma Set_then_Get_fails :
  IsOpen client1 = true
  ∧ Set_ client1 "a/b" "1" tree1
    = (NewStatusCmd "OK" (Some (PathError "open" "jkv_db/scalars/a/b" ENOENT)), tree1)
  ∧ Get client1 "a/b" tree1
    = NewStringCmd "" (Some (PathError "open" "jkv_db/scalars/a/b" ENOENT))
  ∧ (FlushDB client1 tree2).1 = client1
  ∧ Set_ client1 "a" "1" (FlushDB client1 tree2).2
    = (NewStatusCmd "OK" (Some (PathError "open" "jkv_db/scalars/a" ENOENT)),
       (FlushDB client1 tree2).2)
  ∧ Get client1 "a" (FlushDB client1 tree2).2
    = NewStringCmd "" (Some (PathError "open" "jkv_db/scalars/a" ENOENT)).
Proof. repeat split; by vm_compute. Qed.

(** C6, amended: for every key that is a single file name and every
    value, on an open store whose scalars directory exists and holds no
    directory of that name, [Set] returns no error and the [Get] that
    follows returns the value with no error. *)
Theorem Set_then_Get (c : Client) (k v : string) (t : os.node) :
  IsOpen c = true →
  os.Stat (ScalarDir c) t = (true, None) →
  file_name k = true →
  fst (os.Stat (ScalarDir c +:+ k) t) = false →
  StatusCmd_Err (Set_ c k v t).1 = None
  ∧ Get c k (Set_ c k v t).2 = NewStringCmd v None.
Proof.
  intros Hopen Hdir Hk Hnd.
  apply Stat_dir_inv in Hdir as (p & m & Hres & Hp).
  rewrite ScalarDir_slash in Hres.
  apply resolve_slash_inv in Hres as [Hres _]; [| apply scalars_nonempty].
  pose proof (resolve_child _ _ _ _ _ Hres Hp Hk) as Hrk.
  assert (is_dir (lookup_node (p ++ [k]) t) = false) as Hold.
  { revert Hnd. rewrite scalar_path. unfold Stat. rewrite Hrk.
    by destruct (lookup_node (p ++ [k]) t) as [[d | m'] |]. }
  unfold Set_, Get. rewrite Hopen, scalar_path', scalar_path.
  unfold WriteFile. rewrite Hrk.
  set (t' := set_node (p ++ [k]) (Some (File v)) t).
  assert ((None, t') =
    match lookup_node (p ++ [k]) t with
    | Some (Dir _) => (Some (PathError "open" ((DBDir c +:+ "/scalars") +:+ "/" +:+ k) EISDIR), t)
    | _ => (None, t')
    end) as <-.
  { by destruct (lookup_node (p ++ [k]) t) as [[d | m'] |]. }
  simpl. split; [done |].
  assert (resolve ((DBDir c +:+ "/scalars") +:+ "/" +:+ k) t' = inr (p ++ [k])) as Hrk'.
  { eapply resolve_is_dir; [| done]. intros s. by apply set_node_is_dir. }
  unfold ReadFile. rewrite Hrk'. unfold t'.
  by rewrite (lookup_set_node_child _ _ _ _ _ Hp).
Qed.

Lemma Set_then_Get_witness :
  StatusCmd_Err (Set_ client1 "alpha" "1" tree1).1 = None
  ∧ Get client1 "alpha" (Set_ client1 "alpha" "1" tree1).2 = NewStringCmd "1" None.
Proof. apply (Set_then_Get client1 "alpha" "1" tree1); reflexivity. Defined.

(** C7: on an open store, with the field present (a file named [key] in
    the directory of the hash [hash], both single file names), [HDel]
    removes the field and returns the number of entries that remain, with
    no error; afterwards the field is gone, and the hash directory is gone
    exactly when that number is zero: when the field was the last one the
    directory no longer exists and [HKeys] fails, otherwise [HKeys] lists
    the other fields. *)
Theorem HDel_removes_field (c : Client) (hash key : string) (t : os.node)
    (entries : list string) :
  IsOpen c = true →
  file_name hash = true → file_name key = true →
  os.Stat (HashDir c +:+ hash +:+ "/" +:+ key) t = (false, None) →
  HKeys c hash t = NewStringSliceCmd entries None →
  let '(rec, t') := HDel c hash key t in
  rec = NewIntCmd (Z.of_nat (length entries - 1)) None
  ∧ (∃ err, HExists c hash key t' = NewBoolCmd false (Some err))
  ∧ if decide (length entries = 1)
    then (∃ err, os.Stat (HashDir c +:+ hash) t' = (false, Some err))
         ∧ (∃ err, HKeys c hash t' = NewStringSliceCmd [] (Some err))
    else ∃ entries', HKeys c hash t' = NewStringSliceCmd entries' None
         ∧ length entries' = length entries - 1
         ∧ ∀ f, f ∈ entries' ↔ f ∈ entries ∧ f ≠ key.
Proof.
  intros Hopen Hh Hk Hfield Hkeys.
  destruct (field_present _ _ _ _ Hh Hk Hfield)
    as (p0 & m0 & m & d & Hp0 & Hm0 & Hp & Hm & Hmk).
  set (p := p0 ++ [hash]) in *.
  pose proof (resolve_child _ _ _ _ _ Hp Hm Hk) as Hq.
  (* the listing before *)
  assert (entries = sort_names ((map_to_list m).*1)) as ->.
  { revert Hkeys. unfold HKeys, Stat, ReadDir. rewrite Hopen, Hp, Hm. congruence. }
  rewrite length_names.
  (* after the field is unlinked *)
  set (t1 := set_node (p ++ [key]) None t).
  assert (∀ s, is_dir (lookup_node s t1) = is_dir (lookup_node s t)) as Hd1.
  { intros s. apply set_node_is_dir; [| done].
    by rewrite lookup_node_app, Hm; simpl; rewrite Hmk. }
  assert (lookup_node p t1 = Some (Dir (delete key m))) as Hm1.
  { apply (lookup_set_node _ key None _ _ Hm). }
  pose proof (resolve_is_dir _ _ _ _ Hd1 Hp) as Hp1.
  pose proof (resolve_child _ _ _ _ _ Hp1 Hm1 Hk) as Hq1.
  assert (size (delete key m) = size m - 1) as Hsize.
  { rewrite map_size_delete_Some by eauto. lia. }
  assert (size m ≠ 0) as Hpos.
  { intros ->%map_size_empty_iff. by rewrite lookup_empty in Hmk. }
  unfold HDel. rewrite Hopen, field_path.
  unfold Remove. rewrite Hq, lookup_node_app, Hm. simpl. rewrite Hmk. simpl.
  fold t1. unfold ReadDir. rewrite Hp1, Hm1, length_names, Hsize.
  assert (Stat ((HashDir c +:+ hash) +:+ "/" +:+ key) t1
          = (false, Some (PathError "stat" ((HashDir c +:+ hash) +:+ "/" +:+ key) ENOENT)))
    as Hgone1.
  { unfold Stat. rewrite Hq1, lookup_node_app, Hm1. simpl.
    by rewrite lookup_delete_eq. }
  destruct (decide (size m - 1 = 0)) as [Hz | Hnz].
  - (* the last field: the directory goes too *)
    unfold RemoveAll.
    rewrite decide_False by apply hash_path_nonempty.
    assert (endsWithDot (HashDir c +:+ hash) = false) as ->.
    { rewrite hash_path. by apply endsWithDot_child. }
    rewrite Hp1, Hm1. rewrite decide_False by (by destruct p0).
    set (t2 := set_node p None t1).
    assert (lookup_node p t2 = None) as Hm2.
    { destruct (is_dir_Some (lookup_node p0 t1)) as [m0' Hm0'].
      { by rewrite Hd1, Hm0. }
      unfold t2, p. by rewrite (lookup_set_node_child _ _ _ _ _ Hm0'). }
    assert (∃ err, Stat (HashDir c +:+ hash) t2 = (false, Some err)) as Hstat2.
    { unfold Stat. destruct (resolve_unlink t1 p _ _ Hp1) as [Hr | [e Hr]];
        fold t2 in Hr; rewrite Hr; [rewrite Hm2 |]; eauto. }
    rewrite Hz. split; [done |]. split.
    + unfold HExists. rewrite Hopen, field_path. unfold Stat.
      destruct (resolve _ t2) as [e | q] eqn:Hq2; [eauto |].
      apply resolve_child_inv in Hq2 as (p' & m' & Hp' & Hm' & ->);
        [| apply hash_path_nonempty | done].
      destruct (resolve_unlink t1 p _ _ Hp1) as [Hr | [e Hr]]; fold t2 in Hr;
        congruence.
    + rewrite decide_True by lia. split; [done |].
      destruct Hstat2 as [err Hs]. unfold HKeys. rewrite Hopen, Hs. eauto.
  - split; [done |]. split.
    + unfold HExists. rewrite Hopen, field_path, Hgone1. eauto.
    + rewrite decide_False by lia.
      exists (sort_names ((map_to_list (delete key m)).*1)). split; [| split].
      * unfold HKeys, Stat, ReadDir. by rewrite Hopen, Hp1, Hm1.
      * by rewrite length_names.
      * intros f. rewrite !elem_of_names.
        destruct (decide (f = key)) as [-> | Hne].
        -- rewrite lookup_delete_eq. split; [by intros [? [=]] | by intros [_ ?]].
        -- rewrite lookup_delete_ne by done. tauto.
Qed.

Lemma HDel_removes_field_witness :
  let '(rec, t') := HDel client1 "h" "f" tree3 in
  rec = NewIntCmd (Z.of_nat (length ["f"] - 1)) None
  ∧ (∃ err, HExists client1 "h" "f" t' = NewBoolCmd false (Some err))
  ∧ if decide (length ["f"] = 1)
    then (∃ err, os.Stat (HashDir client1 +:+ "h") t' = (false, Some err))
         ∧ (∃ err, HKeys client1 "h" t' = NewStringSliceCmd [] (Some err))
    else ∃ entries', HKeys client1 "h" t' = NewStringSliceCmd entries' None
         ∧ length entries' = length ["f"] - 1
         ∧ ∀ f, f ∈ entries' ↔ f ∈ ["f"] ∧ f ≠ "f".
Proof. apply (HDel_removes_field client1 "h" "f" tree3 ["f"]); reflexivity. Defined.



(** ** The dispatcher *)

Section DispatcherLemmas.
Context {S : Type}.
Implicit Types (d : Dispatcher S) (w : World S).

Lemma run_tokens d line opt_x t0 rest w :
  Fields line = t0 :: rest →
  run d line opt_x w = the_dispatch d (t0 :: rest) opt_x t0 w.
Proof.
  intros H. destruct d; unfold run, ProcessCmd, ProcessCmd_0; by rewrite H.
Qed.

Ltac pick_verb H :=
  unfold the_dispatch, dispatch, dispatch_0; rewrite H;
  repeat first [rewrite decide_True by done | rewrite decide_False by done].

Lemma dispatch_HDEL d tokens opt_x t0 :
  ToUpper t0 = "HDEL" →
  the_dispatch d tokens opt_x t0 =
    cmd_HDEL (backend_of d) tokens.
Proof. intros H. destruct d; by pick_verb H. Qed.

Lemma dispatch_SET d tokens opt_x t0 :
  ToUpper t0 = "SET" →
  the_dispatch d tokens opt_x t0 =
    cmd_SET (backend_of d) tokens opt_x.
Proof. intros H. destruct d; by pick_verb H. Qed.

(** The verbs that both revisions handle with the same code. *)
Lemma dispatch_verb d tokens opt_x t0 :
  the_dispatch d tokens opt_x t0 =
    let db := backend_of d in
    let verb := ToUpper t0 in
    if decide (verb = "FLUSHDB") then cmd_FLUSHDB db tokens
    else if decide (verb = "HGET") then cmd_HGET db tokens
    else if decide (verb = "HSET") then cmd_HSET db tokens
    else if decide (verb = "HDEL") then cmd_HDEL db tokens
    else if decide (verb = "HKEYS") then cmd_HKEYS db tokens
    else if decide (verb = "HEXISTS") then cmd_HEXISTS db tokens
    else if decide (verb = "GET") then cmd_GET db tokens
    else if decide (verb = "SET") then cmd_SET db tokens opt_x
    else if decide (verb = "DEL") then cmd_DEL db tokens
    else if decide (verb = "KEYS") then cmd_KEYS db tokens
    else if decide (verb = "EXISTS") then
      match d with
      | main_go db => cmd_EXISTS db tokens
      | part_001 f => cmd_EXISTS_0 f tokens
      end
    else print (unknown_command t0).
Proof. by destruct d. Qed.

Lemma substring_all_but_last (s : string) :
  s ≠ "" → ∃ b, s = substring 0 (String.length s - 1) s +:+ String b "".
Proof.
  induction s as [|c s IH]; [done |]. intros _.
  destruct s as [|c' s'].
  - by exists c.
  - destruct IH as [b Hb]; [done |]. exists b.
    replace (String.length (String c (String c' s')) - 1)
      with (Datatypes.S (String.length (String c' s') - 1)) by (simpl; lia).
    change (substring 0 (Datatypes.S ?k) (String c ?t))
      with (String c (substring 0 k t)).
    change (String c ?a +:+ ?b) with (String c (a +:+ b)).
    by rewrite <- Hb.
Qed.

Ltac verb_cases H :=
  unfold verbs in H; rewrite !elem_of_cons, elem_of_nil in H;
  destruct H as [H | [H | [H | [H | [H | [H | [H | [H | [H | [H | [H | []]]]]]]]]]]].


(** C3: the claim is that HDEL with exactly two tokens completes without
    an out-of-range token access, calls the hash delete of the backend and
    prints one reply line.  The branch that checks for two tokens reads
    [tokens[2]]: with either revision and any backend, the command panics
    on the index, before any backend call and with nothing printed.
    Stated for lines of ASCII characters, where [Fields] and [ToUpper] are
    the functions of the source. *)
Theorem HDEL_two_tokens_panics d line opt_x w t0 t1 :
  isASCII line = true →
  Fields line = [t0; t1] → ToUpper t0 = "HDEL" →
  run d line opt_x w = Panic (IndexOutOfRange 2 2) w.
Proof.
  intros _ Hf Hv. rewrite (run_tokens _ _ _ _ _ _ Hf), dispatch_HDEL by done.
  by destruct d as [[r | f] | f].
Qed.

(** C4, amended: in stream-mode SET on a line of ASCII characters with
    exactly two tokens, a read of standard input that gives no byte and
    an error other than the end of input makes the dispatcher panic with
    the message of the error, with no reply and no backend call; nothing
    recovers the panic, so the read loop ends there and the lines after
    the command are never processed. *)
Theorem stream_SET_read_error_panics d line w t0 t1 rd rest err :
  isASCII line = true →
  Fields line = [t0; t1] → ToUpper t0 = "SET" →
  stdin w = rd :: rest → rdata rd = "" → rerr rd = Some err → err ≠ EOF →
  let w' := {| store := store w; stdout := stdout w; stdin := rest;
               calls := calls w |} in
  run d line true w = Panic (PanicString (Error err)) w'
  ∧ ∀ prompt lines,
      read_loop d prompt true (line :: lines) w = Panic (PanicString (Error err)) w'.
Proof.
  intros _ Hf Hv Hin Hdata Herr Hne w'.
  assert (run d line true w = Panic (PanicString (Error err)) w') as Hrun.
  { rewrite (run_tokens _ _ _ _ _ _ Hf), dispatch_SET by done.
    unfold cmd_SET. simpl. unfold mbind, M_bind, Stdin_Read. rewrite Hin.
    simpl. rewrite Hdata. simpl. rewrite Herr.
    rewrite decide_True by congruence. done. }
  split; [done |]. intros prompt lines. simpl.
  unfold mbind at 1. unfold M_bind. by rewrite Hrun.
Qed.

(** The other zero-byte read: at the end of input the command is given up
    silently, with no reply and no backend call, and the dispatcher returns. *)
Lemma stream_SET_end_of_input d line w t0 t1 rd rest :
  isASCII line = true →
  Fields line = [t0; t1] → ToUpper t0 = "SET" →
  stdin w = rd :: rest → rdata rd = "" → rerr rd = Some EOF →
  run d line true w
  = Done () {| store := store w; stdout := stdout w; stdin := rest;
               calls := calls w |}.
Proof.
  intros _ Hf Hv Hin Hdata Herr.
  rewrite (run_tokens _ _ _ _ _ _ Hf), dispatch_SET by done.
  unfold cmd_SET. simpl. unfold mbind, M_bind, Stdin_Read. rewrite Hin.
  simpl. rewrite Hdata. simpl. rewrite Herr.
  by rewrite decide_False by (by intros []).
Qed.

(** A read of one byte leaves the empty value. *)
Lemma one_byte_read_stores_empty (s : string) :
  String.length s = 1 → substring 0 (String.length s - 1) s = "".
Proof. by destruct s as [|c [|c' s']]. Qed.

(** C10: in stream-mode SET on a line of ASCII characters with exactly
    two tokens, when the read of standard input gives n > 0 bytes, the
    one backend call is the write of the key with the first n - 1 bytes
    read (the last byte is dropped), and the reply is OK, or (nil) when
    that write fails. *)
Theorem stream_SET_drops_last_byte d line w t0 t1 rd rest :
  isASCII line = true →
  Fields line = [t0; t1] → ToUpper t0 = "SET" →
  stdin w = rd :: rest → rdata rd ≠ "" →
  let value := substring 0 (String.length (rdata rd) - 1) (rdata rd) in
  let '(err, s') := backend_SET d t1 value (store w) in
  (∃ b, rdata rd = value +:+ String b "")
  ∧ run d line true w =
      Done () {| store := s';
                 stdout := stdout w +:+ (if err is Some _ then "(nil)" else "OK") +:+ nl;
                 stdin := rest;
                 calls := calls w ++ [CallSet t1 value] |}.
Proof.
  intros _ Hf Hv Hin Hdata value.
  destruct (backend_SET d t1 value (store w)) as [err s'] eqn:Hset.
  split; [by apply substring_all_but_last |].
  rewrite (run_tokens _ _ _ _ _ _ Hf), dispatch_SET by done.
  unfold cmd_SET. simpl. unfold mbind at 1. unfold M_bind, Stdin_Read. rewrite Hin.
  rewrite decide_False by (by destruct (rdata rd)).
  fold value. unfold backend_SET in Hset.
  destruct d as [[r | f] | f]; simpl; unfold mbind, M_bind, call; simpl.
  - destruct (r_Set r t1 value (store w)) as [rec s1]. simplify_eq.
    unfold print_nil_or_OK, mret, M_ret. by destruct (StatusCmd_Err rec).
  - rewrite Hset. unfold print_nil_or_OK. by destruct err.
  - rewrite Hset. unfold print_nil_or_OK. by destruct err.
Qed.

(** C8, amended: on a line of ASCII characters, for every verb of the
    dispatcher, a token count other than the documented one gets one
    reply and no backend call, except
    that HSET with more than two tokens first asks the backend whether
    the name exists as a scalar (and writes nothing).  The reply is a
    syntax or arity error for FLUSHDB, HKEYS, HEXISTS, SET, KEYS and
    EXISTS, and "(nil)" for GET, HGET, DEL and HDEL; HSET prints its line
    "add -x support" and then "(nil)" with at most two tokens, the
    WRONGTYPE error when the name exists as a scalar, and the arity error
    otherwise. *)
Theorem arity_mismatch d line opt_x w t0 rest :
  isASCII line = true →
  Fields line = t0 :: rest →
  ToUpper t0 ∈ verbs →
  expected_arity (ToUpper t0) opt_x (length (t0 :: rest)) = false →
  ∃ w', run d line opt_x w = Done () w' ∧ stdin w' = stdin w ∧
    match decide (ToUpper t0 = "HSET"), rest with
    | left _, t1 :: _ :: _ =>
        let '(wrong, s') := backend_EXISTS d t1 (store w) in
        calls w' = calls w ++ [CallExists t1]
        ∧ store w' = s'
        ∧ stdout w' =
            (stdout w +:+ "add -x support" +:+ nl)
            +:+ (if wrong then WRONGTYPE else wrong_args "hset") +:+ nl
    | left _, _ =>
        calls w' = calls w ∧ store w' = store w
        ∧ stdout w' = (stdout w +:+ "add -x support" +:+ nl) +:+ "(nil)" +:+ nl
    | right _, _ =>
        calls w' = calls w ∧ store w' = store w
        ∧ stdout w' = stdout w +:+ mismatch_reply (ToUpper t0) +:+ nl
    end.
Proof.
  intros _ Hf Hv Har.
  rewrite (run_tokens _ _ _ _ _ _ Hf), dispatch_verb.
  unfold expected_arity in Har. cbv zeta.
  verb_cases Hv; rewrite Hv in *;
    repeat first [rewrite decide_True in Har by done | rewrite decide_False in Har by done];
    repeat first [rewrite decide_True by done | rewrite decide_False by done];
    apply bool_decide_eq_false in Har;
    destruct (decide (_ = "HSET")) as [? | ?]; try done.
  - unfold cmd_FLUSHDB. rewrite decide_False by done. by eexists.
  - unfold cmd_HGET. rewrite decide_False by done. by eexists.
  - (* HSET *)
    unfold cmd_HSET. destruct rest as [|t1 [|t2 rest']].
    + by eexists.
    + by eexists.
    + destruct (decide (4 ≤ _ ∧ _)%nat) as [? | _]; [done |].
      rewrite decide_True by (simpl; lia).
      unfold backend_EXISTS.
      destruct d as [[r | f] | f]; simpl; unfold mbind, M_bind, call; simpl.
      * destruct (r_Exists r [t1] (store w)) as [rec s']. simpl.
        destruct (bool_decide _); by eexists.
      * destruct (EXISTS f t1 (store w)) as [[] s']; by eexists.
      * destruct (EXISTS f t1 (store w)) as [[] s']; by eexists.
  - unfold cmd_HDEL. rewrite decide_False by done. by eexists.
  - unfold cmd_HKEYS. rewrite decide_False by done. by eexists.
  - unfold cmd_HEXISTS. rewrite decide_False by done. by eexists.
  - unfold cmd_GET. rewrite decide_False by done. by eexists.
  - unfold cmd_SET. destruct opt_x; rewrite decide_False by done; by eexists.
  - unfold cmd_DEL. rewrite decide_False by done. by eexists.
  - unfold cmd_KEYS. rewrite decide_False by done. by eexists.
  - destruct d; unfold cmd_EXISTS, cmd_EXISTS_0; rewrite decide_False by done;
      by eexists.
Qed.

End DispatcherLemmas.

Lemma HDEL_two_tokens_panics_witness :
  run (part_001 mem_db) "HDEL h" false (world0 [])
  = Panic (IndexOutOfRange 2 2) (world0 []).
Proof.
  apply (HDEL_two_tokens_panics (part_001 mem_db) "HDEL h" false (world0 []) "HDEL" "h");
    reflexivity.
Defined.

(** C3, for the current revision: the field given as a third token does
    not help, the branch for three tokens replies (nil) without a call. *)
Lemma HDEL_examples :
  run (main_go (fs_JKV_DB mem_db)) "hdel h" false (world0 [])
  = Panic (IndexOutOfRange 2 2) (world0 [])
  ∧ run (main_go (fs_JKV_DB mem_db)) "hdel h f" false (world0 [])
    = Done () {| store := ∅; stdout := "(nil)" +:+ nl; stdin := []; calls := [] |}.
Proof. split; by vm_compute. Qed.

(** C4, as the claim states it, fails.  In single-shot mode with
    standard input a directory, the read gives no byte and the error
    EISDIR, and the SET panics: the process ends with nothing printed.
    In a session whose input is a file on a device that fails after the
    scanner has read both lines, the read gives no byte and the error
    EIO; the SET panics and the session ends: the GET after it is never
    run. *)
Lemma read_error_ends_session :
  run (main_go (fs_JKV_DB mem_db)) "SET k" true (world0 [failed_read])
  = Panic (PanicString "read /dev/stdin: is a directory") (world0 [])
  ∧ read_loop (main_go (fs_JKV_DB mem_db)) "> " true ["SET k"; "GET k"]
      (world0 [eio_read])
    = Panic (PanicString "read /dev/stdin: input/output error") (world0 []).
Proof. split; by vm_compute. Qed.

Lemma stream_SET_read_error_panics_witness :
  let w' := {| store := store (world0 [eio_read]);
               stdout := stdout (world0 [eio_read]);
               stdin := [];
               calls := calls (world0 [eio_read]) |} in
  run (main_go (fs_JKV_DB mem_db)) "SET k" true (world0 [eio_read])
  = Panic (PanicString (Error (PathError "read" "/dev/stdin" EIO))) w'
  ∧ ∀ prompt lines,
      read_loop (main_go (fs_JKV_DB mem_db)) prompt true ("SET k" :: lines)
        (world0 [eio_read])
      = Panic (PanicString (Error (PathError "read" "/dev/stdin" EIO))) w'.
Proof.
  apply (stream_SET_read_error_panics (main_go (fs_JKV_DB mem_db)) "SET k"
           (world0 [eio_read]) "SET" "k" eio_read []); done.
Defined.

Lemma stream_SET_drops_last_byte_witness :
  let value := substring 0 (String.length (rdata typed_42) - 1) (rdata typed_42) in
  let '(err, s') := backend_SET (part_001 mem_db) "k" value (store (world0 [typed_42])) in
  (∃ b, rdata typed_42 = value +:+ String b "")
  ∧ run (part_001 mem_db) "set k" true (world0 [typed_42]) =
      Done () {| store := s';
                 stdout := stdout (world0 [typed_42])
                           +:+ (if err is Some _ then "(nil)" else "OK") +:+ nl;
                 stdin := [];
                 calls := calls (world0 [typed_42]) ++ [CallSet "k" value] |}.
Proof.
  apply (stream_SET_drops_last_byte (part_001 mem_db) "set k" (world0 [typed_42])
           "set" "k" typed_42 []); done.
Defined.

(** C10 on that input: the value written is 42, without the line end. *)
Lemma stream_SET_example :
  run (part_001 mem_db) "set k" true (world0 [typed_42])
  = Done () {| store := {[ "k" := "42" ]}; stdout := "OK" +:+ nl; stdin := [];
               calls := [CallSet "k" "42"] |}.
Proof. by vm_compute. Qed.

(** C8, as the claim states it, fails: HSET with one field and no value
    has a wrong pair count and still asks the backend whether the name
    exists; and GET with no key replies (nil), not an arity error. *)
Lemma HSET_wrong_pair_count_queries :
  run (main_go (fs_JKV_DB mem_db)) "HSET h f" false (world0 [])
  = Done () {| store := ∅;
               stdout := "add -x support" +:+ nl +:+ wrong_args "hset" +:+ nl;
               stdin := [];
               calls := [CallExists "h"] |}
  ∧ run (main_go (fs_JKV_DB mem_db)) "GET" false (world0 [])
    = Done () {| store := ∅; stdout := "(nil)" +:+ nl; stdin := []; calls := [] |}.
Proof. split; by vm_compute. Qed.

Lemma arity_mismatch_witness :
  ∃ w', run (main_go (fs_JKV_DB mem_db)) "HSET h f" false (world0 []) = Done () w'
    ∧ stdin w' = stdin (world0 []) ∧
    match decide (ToUpper "HSET" = "HSET"), ["h"; "f"] with
    | left _, t1 :: _ :: _ =>
        let '(wrong, s') :=
          backend_EXISTS (main_go (fs_JKV_DB mem_db)) t1 (store (world0 [])) in
        calls w' = calls (world0 []) ++ [CallExists t1]
        ∧ store w' = s'
        ∧ stdout w' =
            (stdout (world0 []) +:+ "add -x support" +:+ nl)
            +:+ (if wrong then WRONGTYPE else wrong_args "hset") +:+ nl
    | left _, _ =>
        calls w' = calls (world0 []) ∧ store w' = store (world0 [])
        ∧ stdout w' = (stdout (world0 []) +:+ "add -x support" +:+ nl) +:+ "(nil)" +:+ nl
    | right _, _ =>
        calls w' = calls (world0 []) ∧ store w' = store (world0 [])
        ∧ stdout w' = stdout (world0 []) +:+ mismatch_reply (ToUpper "HSET") +:+ nl
    end.
Proof.
  apply (arity_mismatch (main_go (fs_JKV_DB mem_db)) "HSET h f" false (world0 [])
           "HSET" ["h"; "f"]); [reflexivity | reflexivity | | reflexivity].
  change (ToUpper "HSET") with "HSET". unfold verbs. repeat constructor.
Defined.

(** * Further properties *)

(** ** Making directories *)

Section MkdirLemmas.

Lemma keeps_dirs_refl t : keeps_dirs t t.
Proof. by intros s. Qed.

Lemma keeps_dirs_trans t1 t2 t3 :
  keeps_dirs t1 t2 → keeps_dirs t2 t3 → keeps_dirs t1 t3.
Proof. intros H1 H2 s Hs. by apply H2, H1. Qed.

(** A new entry where nothing was keeps every directory. *)
Lemma create_keeps_dirs q new n :
  lookup_node q n = None → keeps_dirs n (set_node q (Some new) n).
Proof.
  revert n. induction q as [|c rest IH]; intros n Hq s; [done |].
  destruct n as [d | m]; [done |].
  destruct (decide (rest = [])) as [-> | Hrest].
  - simpl in *. destruct s as [|y s']; [done |]. simpl.
    destruct (decide (y = c)) as [-> | Hy].
    + destruct (m !! c); [done |]. done.
    + by rewrite lookup_partial_alter_ne.
  - rewrite set_node_cons by done. destruct s as [|y s']; [done |]. simpl.
    destruct (decide (y = c)) as [-> | Hy].
    + rewrite lookup_alter_eq. simpl in Hq.
      destruct (m !! c) as [n1 |]; simpl in *; [by apply IH | done].
    + by rewrite lookup_alter_ne.
Qed.

Lemma walk_keeps_dirs t t' s comps p :
  keeps_dirs t t' → walk t s comps = inr p → walk t' s comps = inr p.
Proof.
  intros Hd. revert s. induction comps as [|c rest IH]; intros s; simpl; [done |].
  specialize (Hd s).
  destruct (lookup_node s t) as [[d | m] |]; try done.
  destruct (lookup_node s t') as [[d' | m'] |]; try (by specialize (Hd eq_refl)).
  repeat case_decide; apply IH.
Qed.

Lemma parent_is_dir p x n y :
  lookup_node (p ++ [x]) n = Some y → is_dir (lookup_node p n) = true.
Proof.
  rewrite lookup_node_app.
  by destruct (lookup_node p n) as [[d | m] |].
Qed.

Lemma removelast_is_dir s n :
  is_dir (lookup_node s n) = true → is_dir (lookup_node (removelast s) n) = true.
Proof.
  destruct s as [|x s _] using rev_ind; [done |].
  rewrite removelast_last. intros H.
  destruct (lookup_node (s ++ [x]) n) as [y |] eqn:E; [| done].
  by eapply parent_is_dir.
Qed.

(** A walk that ends in a directory starts in one. *)
Lemma walk_starts_in_dir t s comps p :
  walk t s comps = inr p → is_dir (lookup_node p t) = true →
  is_dir (lookup_node s t) = true.
Proof.
  destruct comps as [|c rest]; simpl; [by intros [= ->] |].
  by destruct (lookup_node s t) as [[d | m] |].
Qed.

(** [MkdirAll] that succeeds: every directory stays one, and the path
    resolves to a directory. *)
Lemma mkdir_walk_ok comps s t t' :
  is_dir (lookup_node s t) = true →
  mkdir_walk s comps t = (None, t') →
  keeps_dirs t t'
  ∧ ∃ p, walk t' s comps = inr p ∧ is_dir (lookup_node p t') = true.
Proof.
  revert s t. induction comps as [|c rest IH]; intros s t Hs Hm.
  { injection Hm as <-. split; [apply keeps_dirs_refl | by exists s]. }
  assert (∀ s' t1, keeps_dirs t t1 → is_dir (lookup_node s' t1) = true →
    mkdir_walk s' rest t1 = (None, t') →
    (∀ t2, is_dir (lookup_node s t2) = true →
           walk t2 s (c :: rest) = walk t2 s' rest) →
    keeps_dirs t t'
    ∧ ∃ p, walk t' s (c :: rest) = inr p ∧ is_dir (lookup_node p t') = true)
    as Hstep.
  { intros s' t1 Hk Hs' Hm' Hw.
    destruct (IH _ _ Hs' Hm') as (Hk' & p & Hp & Hd).
    split; [by eapply keeps_dirs_trans |].
    exists p. split; [| done]. rewrite Hw; [done |]. by apply Hk', Hk. }
  assert (∀ t2 s', is_dir (lookup_node s t2) = true →
    (if decide (c = "" ∨ c = ".") then walk t2 s rest
     else if decide (c = "..") then walk t2 (removelast s) rest
     else walk t2 (s ++ [c]) rest) = walk t2 s' rest →
    walk t2 s (c :: rest) = walk t2 s' rest) as Hw.
  { intros t2 s' H2 <-. simpl.
    by destruct (lookup_node s t2) as [[d | m] |]. }
  simpl in Hm.
  destruct (decide (c = "" ∨ c = ".")) as [Hc1 | Hc1].
  { apply (Hstep s t); [apply keeps_dirs_refl | done | done |].
    intros t2 H2. by apply Hw. }
  destruct (decide (c = "..")) as [Hc2 | Hc2].
  { apply (Hstep (removelast s) t);
      [apply keeps_dirs_refl | by apply removelast_is_dir | done |].
    intros t2 H2. by apply Hw. }
  destruct (lookup_node (s ++ [c]) t) as [[d | m] |] eqn:E; [done | |].
  - apply (Hstep (s ++ [c]) t); [apply keeps_dirs_refl | by rewrite E | done |].
    intros t2 H2. by apply Hw.
  - destruct (lookup_node s t) as [[d | m] |] eqn:Es; try done.
    apply (Hstep (s ++ [c]) (set_node (s ++ [c]) (Some (Dir ∅)) t));
      [by apply create_keeps_dirs | | done |].
    + by rewrite (lookup_set_node_child _ _ _ _ _ Es).
    + intros t2 H2. by apply Hw.
Qed.

(** [MkdirAll] of a directory that exists changes nothing. *)
Lemma mkdir_walk_noop comps s t p :
  walk t s comps = inr p → is_dir (lookup_node p t) = true →
  mkdir_walk s comps t = (None, t).
Proof.
  revert s. induction comps as [|c rest IH]; intros s; simpl; [done |].
  destruct (lookup_node s t) as [[d | m] |]; try done.
  case_decide; [apply IH |]. case_decide; [apply IH |].
  intros Hw Hp.
  pose proof (walk_starts_in_dir _ _ _ _ Hw Hp) as Hd.
  destruct (lookup_node (s ++ [c]) t) as [[d | m'] |]; try done.
  by apply IH.
Qed.

Lemma MkdirAll_ok path m t' :
  MkdirAll path (Dir m) = (None, t') →
  keeps_dirs (Dir m) t' ∧ Stat path t' = (true, None).
Proof.
  unfold MkdirAll, Stat, resolve. destruct (has_nul path); [done |].
  case_decide; [done |].
  destruct (mkdir_walk [] (split path) (Dir m)) as [[e |] t1] eqn:E; [done |].
  intros [= <-]. apply mkdir_walk_ok in E as (Hk & p & -> & Hd); [| done].
  split; [done |]. by destruct (lookup_node p t1) as [[d | m'] |].
Qed.

Lemma MkdirAll_noop path t :
  Stat path t = (true, None) → MkdirAll path t = (None, t).
Proof.
  unfold MkdirAll, Stat, resolve. destruct (has_nul path); [done |].
  case_decide; [done |].
  destruct (walk t [] (split path)) as [e | p] eqn:E; [done |].
  destruct (lookup_node p t) as [[d | m] |] eqn:El; try done. intros _.
  rewrite (mkdir_walk_noop _ _ _ _ E); [done |]. by rewrite El.
Qed.

Lemma Stat_keeps_dirs path t t' :
  keeps_dirs t t' → Stat path t = (true, None) → Stat path t' = (true, None).
Proof.
  intros Hk. unfold Stat, resolve. destruct (has_nul path); [done |].
  case_decide; [done |].
  destruct (walk t [] (split path)) as [e | p] eqn:E; [done |].
  rewrite (walk_keeps_dirs _ _ _ _ _ Hk E).
  specialize (Hk p).
  destruct (lookup_node p t) as [[d | m] |]; try done.
  by destruct (lookup_node p t') as [[d' | m'] |]; try (by specialize (Hk eq_refl)).
Qed.

(** A tree is a directory tree when its root is a directory; [MkdirAll]
    keeps it one. *)
Lemma keeps_dirs_root m t' : keeps_dirs (Dir m) t' → ∃ m', t' = Dir m'.
Proof. intros H. specialize (H [] eq_refl). destruct t'; [done | eauto]. Qed.

End MkdirLemmas.

(** X1: [Open] on any directory tree keeps the name of the root directory,
    leaves the store open exactly when it returns no error, and in that
    case both the scalars and the hashes directory exist as directories
    afterwards. *)
Theorem Open_opens (c : Client) (m : gmap string node) :
  let '(err, c', t') := Open c (Dir m) in
  DBDir c' = DBDir c
  ∧ (IsOpen c' = true ↔ err = None)
  ∧ (err = None →
     Stat (ScalarDir c) t' = (true, None) ∧ Stat (HashDir c) t' = (true, None)).
Proof.
  unfold Open. simpl.
  change (ScalarDir (set_IsOpen false c)) with (ScalarDir c).
  change (HashDir (set_IsOpen false c)) with (HashDir c).
  destruct (MkdirAll (ScalarDir c) (Dir m)) as [[e1 |] t1] eqn:E1; [by split |].
  apply MkdirAll_ok in E1 as [Hk1 Hs1].
  destruct (keeps_dirs_root _ _ Hk1) as [m1 ->].
  destruct (MkdirAll (HashDir c) (Dir m1)) as [[e2 |] t2] eqn:E2; [by split |].
  apply MkdirAll_ok in E2 as [Hk2 Hs2].
  split; [done |]. split; [done |]. intros _. split; [| done].
  by eapply Stat_keeps_dirs.
Qed.

(** X2: when the scalars and the hashes directory both exist already,
    [Open] changes nothing in the tree, returns no error and leaves the
    store open. *)
Theorem Open_again (c : Client) (t : node) :
  Stat (ScalarDir c) t = (true, None) → Stat (HashDir c) t = (true, None) →
  Open c t = (None, set_IsOpen true c, t).
Proof.
  intros Hs Hh. unfold Open. simpl.
  change (ScalarDir (set_IsOpen false c)) with (ScalarDir c).
  change (HashDir (set_IsOpen false c)) with (HashDir c).
  by rewrite (MkdirAll_noop _ _ Hs), (MkdirAll_noop _ _ Hh).
Qed.

Lemma Open_again_witness :
  Open client1 tree2 = (None, set_IsOpen true client1, tree2).
Proof. apply (Open_again client1 tree2); by vm_compute. Defined.

(** X3: after [Open], [Ping] answers PONG exactly when [Open] returned no
    error; after [Close], and on a store just made by [NewClient], it fails
    with the error of a store that is not open. *)
Theorem Ping_follows_Open (c : Client) (opts : Options) (t : node) :
  let '(err, c', _) := Open c t in
  (Ping c' = NewStatusCmd "PONG" None ↔ err = None)
  ∧ Ping (Close c') = NewStatusCmd "" (Some notOpen)
  ∧ Ping (NewClient opts) = NewStatusCmd "" (Some notOpen).
Proof.
  unfold Open. destruct (Open_dirs _ t) as [[e |] t']; by repeat split.
Qed.

(** ** The scalars of a store as a finite map *)

Section ScalarLemmas.

Lemma append_nil_r (s : string) : s +:+ "" = s.
Proof. induction s as [|c s IH]; [done |]. by rewrite append_cons, IH. Qed.

Lemma scalars_of_Stat c t :
  Stat (ScalarDir c) t = (true, None) → ∃ p m, scalars_at c t p m.
Proof.
  intros (p & m & Hres & Hp)%Stat_dir_inv.
  rewrite ScalarDir_slash in Hres.
  apply resolve_slash_inv in Hres as [Hres _]; [| apply scalars_nonempty].
  by exists p, m.
Qed.

Lemma hashes_of_Stat c t :
  Stat (HashDir c) t = (true, None) → ∃ q m, hashes_at c t q m.
Proof.
  intros (p & m & Hres & Hp)%Stat_dir_inv.
  rewrite HashDir_slash in Hres.
  apply resolve_slash_inv in Hres as [Hres _]; [| apply hashes_nonempty].
  by exists p, m.
Qed.

(** The path of a key below the scalars directory. *)
Lemma scalar_resolve c t p m k :
  scalars_at c t p m → file_name k = true →
  resolve (ScalarDir c +:+ k) t = inr (p ++ [k]).
Proof.
  intros [Hres Hp] Hk. rewrite scalar_path. by eapply resolve_child.
Qed.

Lemma scalar_lookup c t p m k :
  scalars_at c t p m → lookup_node (p ++ [k]) t = m !! k.
Proof.
  intros [_ Hp]. rewrite lookup_node_app, Hp. simpl. by destruct (m !! k).
Qed.

Lemma Get_view c t p m k :
  IsOpen c = true → scalars_at c t p m → file_name k = true →
  Get c k t =
    match m !! k with
    | Some (File data) => NewStringCmd data None
    | Some (Dir _) =>
        NewStringCmd "" (Some (PathError "read" (ScalarDir c +:+ k) EISDIR))
    | None => NewStringCmd "" (Some (PathError "open" (ScalarDir c +:+ k) ENOENT))
    end.
Proof.
  intros Hopen Hs Hk. unfold Get, ReadFile.
  rewrite Hopen, (scalar_resolve _ _ _ _ _ Hs Hk), (scalar_lookup _ _ _ _ _ Hs).
  by destruct (m !! k) as [[d | m'] |].
Qed.

Lemma Exists_view c t p m k keys :
  IsOpen c = true → scalars_at c t p m → file_name k = true →
  Exists c (k :: keys) t =
    Returned (match m !! k with
              | Some _ => NewIntCmd 1 None
              | None => NewIntCmd 0 (Some (PathError "stat" (ScalarDir c +:+ k) ENOENT))
              end).
Proof.
  intros Hopen Hs Hk. unfold Exists, Stat.
  rewrite Hopen, (scalar_resolve _ _ _ _ _ Hs Hk), (scalar_lookup _ _ _ _ _ Hs).
  by destruct (m !! k) as [[d | m'] |].
Qed.

Lemma Stat_view c t p m k :
  scalars_at c t p m → file_name k = true →
  Stat (ScalarDir c +:+ k) t =
    match m !! k with
    | Some (Dir _) => (true, None)
    | Some (File _) => (false, None)
    | None => (false, Some (PathError "stat" (ScalarDir c +:+ k) ENOENT))
    end.
Proof.
  intros Hs Hk. unfold Stat.
  by rewrite (scalar_resolve _ _ _ _ _ Hs Hk), (scalar_lookup _ _ _ _ _ Hs).
Qed.

(** Writing or unlinking a file of the scalars directory changes the map
    at that key and keeps every directory. *)
Lemma scalars_update c t p m k new :
  scalars_at c t p m → is_dir (m !! k) = false → is_dir new = false →
  scalars_at c (set_node (p ++ [k]) new t) p (partial_alter (λ _, new) k m)
  ∧ ∀ s, is_dir (lookup_node s (set_node (p ++ [k]) new t)) = is_dir (lookup_node s t).
Proof.
  intros [Hres Hp] Hold Hnew.
  assert (∀ s, is_dir (lookup_node s (set_node (p ++ [k]) new t))
               = is_dir (lookup_node s t)) as Hd.
  { intros s. apply set_node_is_dir; [| done].
    by rewrite lookup_node_app, Hp; simpl; destruct (m !! k). }
  split; [| done]. split.
  - by eapply resolve_is_dir.
  - by apply lookup_set_node.
Qed.

Lemma Set_view c t p m k v :
  IsOpen c = true → scalars_at c t p m → file_name k = true →
  is_dir (m !! k) = false →
  Set_ c k v t = (NewStatusCmd "OK" None, set_node (p ++ [k]) (Some (File v)) t).
Proof.
  intros Hopen Hs Hk Hold. unfold Set_, WriteFile.
  rewrite Hopen, scalar_path', <- scalar_path.
  rewrite (scalar_resolve _ _ _ _ _ Hs Hk), (scalar_lookup _ _ _ _ _ Hs).
  by destruct (m !! k) as [[d | m'] |].
Qed.

Lemma Del_view c t p m k keys data :
  IsOpen c = true → scalars_at c t p m → file_name k = true →
  m !! k = Some (File data) →
  Del c (k :: keys) t =
    Returned (NewIntCmd (Z.of_nat (Datatypes.S (length keys))) None,
              set_node (p ++ [k]) None t).
Proof.
  intros Hopen Hs Hk Hm. unfold Del, Remove.
  by rewrite Hopen, (scalar_resolve _ _ _ _ _ Hs Hk), (scalar_lookup _ _ _ _ _ Hs), Hm.
Qed.

End ScalarLemmas.

(** X4: on an open store whose scalars directory exists, for a key that
    is a single file name and not a directory there, two [Set]s of the same
    key both succeed and [Get] then returns the second value. *)
Theorem Set_last_write_wins (c : Client) (k v1 v2 : string) (t : node) :
  IsOpen c = true →
  Stat (ScalarDir c) t = (true, None) →
  file_name k = true →
  (Stat (ScalarDir c +:+ k) t).1 = false →
  let '(r1, t1) := Set_ c k v1 t in
  let '(r2, t2) := Set_ c k v2 t1 in
  StatusCmd_Err r1 = None ∧ StatusCmd_Err r2 = None
  ∧ Get c k t2 = NewStringCmd v2 None.
Proof.
  intros Hopen (p & m & Hs)%scalars_of_Stat Hk Hnd.
  assert (is_dir (m !! k) = false) as Hold.
  { rewrite (Stat_view _ _ _ _ _ Hs Hk) in Hnd. by destruct (m !! k) as [[d | m'] |]. }
  rewrite (Set_view _ _ _ _ _ v1 Hopen Hs Hk Hold).
  destruct (scalars_update _ _ _ _ k (Some (File v1)) Hs Hold eq_refl) as [Hs1 _].
  assert (is_dir (partial_alter (λ _, Some (File v1)) k m !! k) = false) as Hold1
    by (by rewrite lookup_partial_alter_eq).
  rewrite (Set_view _ _ _ _ _ v2 Hopen Hs1 Hk Hold1).
  destruct (scalars_update _ _ _ _ k (Some (File v2)) Hs1 Hold1 eq_refl) as [Hs2 _].
  rewrite (Get_view _ _ _ _ _ Hopen Hs2 Hk), lookup_partial_alter_eq. done.
Qed.

Lemma Set_last_write_wins_witness :
  let '(r1, t1) := Set_ client1 "a" "x" tree2 in
  let '(r2, t2) := Set_ client1 "a" "y" t1 in
  StatusCmd_Err r1 = None ∧ StatusCmd_Err r2 = None
  ∧ Get client1 "a" t2 = NewStringCmd "y" None.
Proof. apply (Set_last_write_wins client1 "a" "x" "y" tree2); by vm_compute. Defined.

(** X5: under the same conditions a [Set] of one key leaves what [Get]
    and [Exists] return for every other key as it was. *)
Theorem Set_keeps_other_keys (c : Client) (k k' v : string) (t : node) :
  IsOpen c = true →
  Stat (ScalarDir c) t = (true, None) →
  file_name k = true → file_name k' = true → k ≠ k' →
  (Stat (ScalarDir c +:+ k) t).1 = false →
  Get c k' (Set_ c k v t).2 = Get c k' t
  ∧ Exists c [k'] (Set_ c k v t).2 = Exists c [k'] t.
Proof.
  intros Hopen (p & m & Hs)%scalars_of_Stat Hk Hk' Hne Hnd.
  assert (is_dir (m !! k) = false) as Hold.
  { rewrite (Stat_view _ _ _ _ _ Hs Hk) in Hnd. by destruct (m !! k) as [[d | m'] |]. }
  rewrite (Set_view _ _ _ _ _ v Hopen Hs Hk Hold). simpl.
  destruct (scalars_update _ _ _ _ k (Some (File v)) Hs Hold eq_refl) as [Hs1 _].
  rewrite (Get_view _ _ _ _ _ Hopen Hs1 Hk'), (Get_view _ _ _ _ _ Hopen Hs Hk').
  rewrite (Exists_view _ _ _ _ _ _ Hopen Hs1 Hk'), (Exists_view _ _ _ _ _ _ Hopen Hs Hk').
  by rewrite lookup_partial_alter_ne.
Qed.

Lemma Set_keeps_other_keys_witness :
  Get client1 "b" (Set_ client1 "a" "x" tree2).2 = Get client1 "b" tree2
  ∧ Exists client1 ["b"] (Set_ client1 "a" "x" tree2).2 = Exists client1 ["b"] tree2.
Proof.
  apply (Set_keeps_other_keys client1 "a" "b" "x" tree2); first [done | by vm_compute].
Defined.

(** X6: [Del] of one key that is present as a file returns 1 and no
    error; afterwards [Get] and [Exists] of that key fail with the error of
    a missing file, and every other key reads as before. *)
Theorem Del_then_Get (c : Client) (k : string) (t : node) :
  IsOpen c = true →
  file_name k = true →
  Stat (ScalarDir c) t = (true, None) →
  Stat (ScalarDir c +:+ k) t = (false, None) →
  ∃ t', Del c [k] t = Returned (NewIntCmd 1 None, t')
    ∧ Get c k t' = NewStringCmd "" (Some (PathError "open" (ScalarDir c +:+ k) ENOENT))
    ∧ Exists c [k] t'
      = Returned (NewIntCmd 0 (Some (PathError "stat" (ScalarDir c +:+ k) ENOENT)))
    ∧ ∀ k', file_name k' = true → k' ≠ k → Get c k' t' = Get c k' t.
Proof.
  intros Hopen Hk (p & m & Hs)%scalars_of_Stat Hfile.
  rewrite (Stat_view _ _ _ _ _ Hs Hk) in Hfile.
  destruct (m !! k) as [[data | m'] |] eqn:Hm; try done.
  assert (is_dir (m !! k) = false) as Hold by (by rewrite Hm).
  destruct (scalars_update _ _ _ _ k None Hs Hold eq_refl) as [Hs1 _].
  eexists. split; [by eapply Del_view |].
  rewrite (Get_view _ _ _ _ _ Hopen Hs1 Hk), (Exists_view _ _ _ _ _ _ Hopen Hs1 Hk).
  rewrite lookup_partial_alter_eq. repeat split.
  intros k' Hk' Hne.
  rewrite (Get_view _ _ _ _ _ Hopen Hs1 Hk'), (Get_view _ _ _ _ _ Hopen Hs Hk').
  by rewrite lookup_partial_alter_ne.
Qed.

Lemma Del_then_Get_witness :
  ∃ t', Del client1 ["a"] tree2 = Returned (NewIntCmd 1 None, t')
    ∧ Get client1 "a" t'
      = NewStringCmd "" (Some (PathError "open" (ScalarDir client1 +:+ "a") ENOENT))
    ∧ Exists client1 ["a"] t'
      = Returned (NewIntCmd 0 (Some (PathError "stat" (ScalarDir client1 +:+ "a") ENOENT)))
    ∧ ∀ k', file_name k' = true → k' ≠ "a" → Get client1 k' t' = Get client1 k' tree2.
Proof. apply (Del_then_Get client1 "a" tree2); by vm_compute. Defined.

(** X7: when [os.Stat] does not find the file of the first key, [Del]
    returns an error and leaves the tree unchanged; its value is still the
    number of keys it was given. *)
Theorem Del_missing_key (c : Client) (k : string) (keys : list string) (t : node) :
  IsOpen c = true →
  (Stat (ScalarDir c +:+ k) t).2 ≠ None →
  ∃ err, Del c (k :: keys) t
         = Returned (NewIntCmd (Z.of_nat (Datatypes.S (length keys))) (Some err), t).
Proof.
  intros Hopen. unfold Del, Stat, Remove. rewrite Hopen.
  destruct (resolve _ t) as [e | p]; [by eexists |].
  destruct (lookup_node p t) as [[d | m] |]; [done | done | by eexists].
Qed.

Lemma Del_missing_key_witness :
  ∃ err, Del client1 ["zz"; "a"] tree2
         = Returned (NewIntCmd (Z.of_nat (Datatypes.S (length ["a"]))) (Some err), tree2).
Proof. apply (Del_missing_key client1 "zz" ["a"] tree2); by vm_compute. Defined.

(** ** The two directories of a store *)

Section StoreLemmas.

(** A path with a separator added resolves as the directory it names. *)
Lemma resolve_slash X t p m :
  resolve X t = inr p → lookup_node p t = Some (Dir m) →
  resolve (X +:+ "/") t = inr p.
Proof.
  unfold resolve. intros HX Hp.
  rewrite has_nul_app. destruct (has_nul X); [done |]. simpl.
  case_decide as HX0; [done |].
  rewrite decide_False by (by intros [_ [=]]%append_empty).
  change (X +:+ "/") with (X +:+ "/" +:+ "").
  rewrite split_app_sep, walk_app, HX. simpl. by rewrite Hp.
Qed.

(** Entries of different names do not see each other. *)
Lemma lookup_set_node_sibling d a b r1 r2 new n :
  a ≠ b →
  lookup_node (d ++ a :: r1) (set_node (d ++ b :: r2) new n)
  = lookup_node (d ++ a :: r1) n.
Proof.
  intros Hab. revert n. induction d as [|x d IH]; intros n.
  - destruct n as [data | m]; [done |]. simpl.
    destruct r2; simpl.
    + by rewrite lookup_partial_alter_ne.
    + by rewrite lookup_alter_ne.
  - destruct n as [data | m]; [done |].
    change ((x :: d) ++ b :: r2) with (x :: (d ++ b :: r2)).
    rewrite set_node_cons by (by destruct d).
    simpl. rewrite lookup_alter_eq.
    destruct (m !! x) as [n1 |]; simpl; [apply IH | done].
Qed.

(** The two directories of a store are siblings. *)
Lemma store_dir_path c t name p :
  file_name name = true →
  resolve (DBDir c +:+ "/" +:+ name) t = inr p →
  ∃ d, walk t [] (split (DBDir c)) = inr d ∧ p = d ++ [name].
Proof.
  intros Hn. unfold resolve.
  destruct (has_nul _); [done |]. case_decide; [done |].
  pose proof (file_name_spec _ Hn) as (Hsep & _).
  rewrite split_app_sep, walk_app, (split_no_sep _ Hsep).
  destruct (walk t [] (split (DBDir c))) as [e | d]; [done |].
  intros [_ ->]%walk_name_iff; eauto.
Qed.

Lemma store_dirs c t p ms q mh :
  scalars_at c t p ms → hashes_at c t q mh →
  ∃ d, p = d ++ ["scalars"] ∧ q = d ++ ["hashes"].
Proof.
  intros [Hp _] [Hq _].
  apply (store_dir_path c t "scalars") in Hp as (d & Hd & ->); [| done].
  apply (store_dir_path c t "hashes") in Hq as (d' & Hd' & ->); [| done].
  exists d. split; [done |]. congruence.
Qed.

Lemma ReadDir_view X t p m :
  resolve X t = inr p → lookup_node p t = Some (Dir m) →
  ReadDir (X +:+ "/") t = (sort_names ((map_to_list m).*1), None).
Proof.
  intros HX Hp. unfold ReadDir. by rewrite (resolve_slash _ _ _ _ HX Hp), Hp.
Qed.

Lemma Keys_view c t p ms q mh pattern :
  scalars_at c t p ms → hashes_at c t q mh →
  Keys c pattern t =
    NewStringSliceCmd (sort_names ((map_to_list ms).*1) ++ sort_names ((map_to_list mh).*1))
                      None.
Proof.
  intros [Hp Hms] [Hq Hmh]. unfold Keys. simpl.
  rewrite ScalarDir_slash, HashDir_slash.
  by rewrite (ReadDir_view _ _ _ _ Hp Hms), (ReadDir_view _ _ _ _ Hq Hmh).
Qed.

(** What is below a directory is gone with it. *)
Lemma gone_below X t q x rest :
  resolve X t = inr (q ++ [x]) → is_Some (lookup_node (q ++ [x]) t) →
  ∃ e, resolve (X +:+ "/" +:+ rest) (set_node (q ++ [x]) None t) = inl e.
Proof.
  intros HX [y Hy]. set (t' := set_node (q ++ [x]) None t).
  assert (lookup_node (q ++ [x]) t' = None) as Hgone.
  { pose proof (parent_is_dir _ _ _ _ Hy) as Hq.
    destruct (lookup_node q t) as [[data | m] |] eqn:Em; try done.
    unfold t'. by rewrite (lookup_set_node_child _ _ _ _ _ Em). }
  revert HX. unfold resolve. rewrite !has_nul_app.
  destruct (has_nul X); [done |].
  case_decide as HX0; [done |]. intros HX.
  change (has_nul "/") with false. simpl.
  destruct (has_nul rest); [eauto |].
  rewrite decide_False by (by intros [_ [=]]%append_empty).
  rewrite split_app_sep, walk_app.
  destruct (walk_unlink t (q ++ [x]) _ _ _ HX) as [Hw | [e Hw]];
    fold t' in Hw; rewrite Hw; [| eauto].
  destruct (split rest) as [|r l] eqn:Hs; [by apply split_nonempty in Hs |].
  simpl. rewrite Hgone. eauto.
Qed.

End StoreLemmas.

(** X8: with the empty key the path is the scalars directory itself: on
    an open store where it exists, [Exists] reports 1, and [Get] and [Set]
    fail with the error of a directory and leave the tree unchanged. *)
Theorem empty_key_is_the_directory (c : Client) (v : string) (t : node) :
  IsOpen c = true →
  Stat (ScalarDir c) t = (true, None) →
  Exists c [""] t = Returned (NewIntCmd 1 None)
  ∧ Get c "" t = NewStringCmd "" (Some (PathError "read" (ScalarDir c) EISDIR))
  ∧ Set_ c "" v t
    = (NewStatusCmd "OK" (Some (PathError "open" (ScalarDir c) EISDIR)), t).
Proof.
  intros Hopen Hs. pose proof Hs as (p & m & Hres & Hp)%Stat_dir_inv.
  unfold Exists, Get, Set_, ReadFile, WriteFile.
  change (DBDir c +:+ "/scalars/" +:+ "") with (ScalarDir c).
  by rewrite Hopen, append_nil_r, Hs, Hres, Hp.
Qed.

Lemma empty_key_is_the_directory_witness :
  Exists client1 [""] tree2 = Returned (NewIntCmd 1 None)
  ∧ Get client1 "" tree2
    = NewStringCmd "" (Some (PathError "read" (ScalarDir client1) EISDIR))
  ∧ Set_ client1 "" "v" tree2
    = (NewStatusCmd "OK" (Some (PathError "open" (ScalarDir client1) EISDIR)), tree2).
Proof. apply (empty_key_is_the_directory client1 "v" tree2); by vm_compute. Defined.

(** X9: on an open store whose scalars directory is empty, [Del] of the
    empty key removes the scalars directory itself and returns 1 without
    error; afterwards the directory is gone and every [Set] fails. *)
Theorem Del_empty_key_removes_directory (c : Client) (t : node) :
  IsOpen c = true →
  ReadDir (ScalarDir c) t = ([], None) →
  ∃ t', Del c [""] t = Returned (NewIntCmd 1 None, t')
    ∧ (∃ err, Stat (ScalarDir c) t' = (false, Some err))
    ∧ ∀ k v, ∃ err, Set_ c k v t' = (NewStatusCmd "OK" (Some err), t').
Proof.
  intros Hopen Hrd.
  assert (∃ p, resolve (ScalarDir c) t = inr p ∧ lookup_node p t = Some (Dir ∅))
    as (p & Hres & Hp).
  { revert Hrd. unfold ReadDir.
    destruct (resolve (ScalarDir c) t) as [e | p]; [done |].
    destruct (lookup_node p t) as [[d | m] |] eqn:E; try done.
    intros [= Hn]. exists p. split; [done |].
    apply (f_equal length) in Hn. rewrite length_names in Hn.
    by apply map_size_empty_iff in Hn as ->. }
  pose proof Hres as Hres'. rewrite ScalarDir_slash in Hres'.
  apply resolve_slash_inv in Hres' as [HX _]; [| apply scalars_nonempty].
  pose proof HX as HX'.
  apply (store_dir_path c t "scalars") in HX' as (d & _ & ->); [| done].
  exists (set_node (d ++ ["scalars"]) None t). split; [| split].
  - unfold Del, Remove. rewrite Hopen, append_nil_r, Hres, Hp.
    rewrite decide_False by (by destruct d). by rewrite decide_True.
  - destruct (gone_below _ _ _ _ "" HX) as [e He]; [by rewrite Hp |].
    unfold Stat. rewrite ScalarDir_slash.
    change ((DBDir c +:+ "/scalars") +:+ "/") with ((DBDir c +:+ "/scalars") +:+ "/" +:+ "").
    rewrite He. eauto.
  - intros k v. destruct (gone_below _ _ _ _ k HX) as [e He]; [by rewrite Hp |].
    unfold Set_, WriteFile. rewrite Hopen, scalar_path', He. eauto.
Qed.

Lemma Del_empty_key_removes_directory_witness :
  ∃ t', Del client1 [""] tree1 = Returned (NewIntCmd 1 None, t')
    ∧ (∃ err, Stat (ScalarDir client1) t' = (false, Some err))
    ∧ ∀ k v, ∃ err, Set_ client1 k v t' = (NewStatusCmd "OK" (Some err), t').
Proof. apply (Del_empty_key_removes_directory client1 tree1); by vm_compute. Defined.

(** X10: on an open store with both directories, after a [Set] of a key
    the listing of [Keys] holds that key and what it held before, and
    nothing else. *)
Theorem Set_then_Keys (c : Client) (k v pattern : string) (t : node) :
  IsOpen c = true →
  Stat (ScalarDir c) t = (true, None) →
  Stat (HashDir c) t = (true, None) →
  file_name k = true →
  (Stat (ScalarDir c +:+ k) t).1 = false →
  ∃ keys keys',
    Keys c pattern t = NewStringSliceCmd keys None
    ∧ Keys c pattern (Set_ c k v t).2 = NewStringSliceCmd keys' None
    ∧ ∀ x, x ∈ keys' ↔ x = k ∨ x ∈ keys.
Proof.
  intros Hopen (p & ms & Hs)%scalars_of_Stat (q & mh & Hh)%hashes_of_Stat Hk Hnd.
  assert (is_dir (ms !! k) = false) as Hold.
  { rewrite (Stat_view _ _ _ _ _ Hs Hk) in Hnd. by destruct (ms !! k) as [[d | m'] |]. }
  rewrite (Set_view _ _ _ _ _ v Hopen Hs Hk Hold). simpl.
  destruct (scalars_update _ _ _ _ k (Some (File v)) Hs Hold eq_refl) as [Hs1 Hd].
  destruct (store_dirs _ _ _ _ _ _ Hs Hh) as (d & -> & ->).
  assert (hashes_at c (set_node ((d ++ ["scalars"]) ++ [k]) (Some (File v)) t)
            (d ++ ["hashes"]) mh) as Hh1.
  { destruct Hh as [Hq Hmh]. split; [by eapply resolve_is_dir |].
    rewrite <- (assoc_L (++)). simpl.
    by rewrite (lookup_set_node_sibling d "hashes" "scalars" [] [k]). }
  eexists _, _. split; [by eapply Keys_view |]. split; [by eapply Keys_view |].
  intros x. rewrite !elem_of_app, !elem_of_names.
  destruct (decide (x = k)) as [-> | Hne].
  - rewrite lookup_partial_alter_eq. split; [by left | intros _; left; eauto].
  - rewrite lookup_partial_alter_ne by done.
    split; [by right | by intros [? | ?]].
Qed.

Lemma Set_then_Keys_witness :
  ∃ keys keys',
    Keys client1 "*" tree3 = NewStringSliceCmd keys None
    ∧ Keys client1 "*" (Set_ client1 "c" "3" tree3).2 = NewStringSliceCmd keys' None
    ∧ ∀ x, x ∈ keys' ↔ x = "c" ∨ x ∈ keys.
Proof. apply (Set_then_Keys client1 "c" "3" "*" tree3); by vm_compute. Defined.

(** X11: when [os.Stat] does not find the file of the field, [HDel]
    returns 0 with an error and leaves the tree unchanged. *)
Theorem HDel_missing_field (c : Client) (hash key : string) (t : node) :
  IsOpen c = true →
  (Stat (HashDir c +:+ hash +:+ "/" +:+ key) t).2 ≠ None →
  ∃ err, HDel c hash key t = (NewIntCmd 0 (Some err), t).
Proof.
  intros Hopen. unfold HDel, Stat, Remove. rewrite Hopen.
  destruct (resolve _ t) as [e | p]; [by eexists |].
  destruct (lookup_node p t) as [[d | m] |]; [done | done | by eexists].
Qed.

Lemma HDel_missing_field_witness :
  ∃ err, HDel client1 "h" "zz" tree3 = (NewIntCmd 0 (Some err), tree3).
Proof. apply (HDel_missing_field client1 "h" "zz" tree3); by vm_compute. Defined.

(** X12: when [HKeys] lists a hash without error, a single file name is
    in the list exactly when [HExists] finds it in that hash. *)
Theorem HKeys_lists_what_HExists_finds (c : Client) (hash f : string)
    (entries : list string) (t : node) :
  HKeys c hash t = NewStringSliceCmd entries None →
  file_name f = true →
  f ∈ entries ↔ HExists c hash f t = NewBoolCmd true None.
Proof.
  unfold HKeys, HExists. destruct (IsOpen c); [| done].
  rewrite field_path. unfold Stat at 1.
  destruct (resolve (HashDir c +:+ hash) t) as [e | p] eqn:Hp; [done |].
  destruct (lookup_node p t) as [[d | m] |] eqn:Hm; try done.
  - unfold ReadDir. by rewrite Hp, Hm.
  - unfold ReadDir. rewrite Hp, Hm. intros [= <-] Hf.
    unfold Stat. rewrite (resolve_child _ _ _ _ _ Hp Hm Hf).
    rewrite lookup_node_app, Hm. simpl. rewrite elem_of_names.
    destruct (m !! f) as [[d | m'] |]; simpl; split; try done; eauto.
    all: by intros [? [=]].
Qed.

Lemma HKeys_lists_what_HExists_finds_witness :
  "f" ∈ ["f"] ↔ HExists client1 "h" "f" tree3 = NewBoolCmd true None.
Proof.
  apply (HKeys_lists_what_HExists_finds client1 "h" "f" ["f"] tree3); by vm_compute.
Defined.

(** ** A store made anew *)

Section FreshStore.

(** A directory made below an existing one, where nothing was. *)
Lemma mkdir_walk_child s name t m :
  file_name name = true →
  lookup_node s t = Some (Dir m) → m !! name = None →
  mkdir_walk s [name; ""] t = (None, set_node (s ++ [name]) (Some (Dir ∅)) t).
Proof.
  intros (_ & _ & H1 & H2 & H3)%file_name_spec Hs Hm. simpl.
  rewrite decide_False by (intros [? | ?]; congruence).
  rewrite decide_False by done.
  by rewrite lookup_node_app, Hs; simpl; rewrite Hm.
Qed.

Lemma mkdir_walk_name s name rest t :
  file_name name = true →
  mkdir_walk s (name :: rest) t =
    match lookup_node (s ++ [name]) t with
    | Some (Dir _) => mkdir_walk (s ++ [name]) rest t
    | Some (File _) => (Some ENOTDIR, t)
    | None =>
        mkdir_walk (s ++ [name]) rest (set_node (s ++ [name]) (Some (Dir ∅)) t)
    end.
Proof.
  intros (_ & _ & H1 & H2 & H3)%file_name_spec. cbn [mkdir_walk].
  rewrite decide_False by (intros [? | ?]; congruence).
  by rewrite decide_False by done.
Qed.

Lemma set_node_root p new m : ∃ m', set_node p new (Dir m) = Dir m'.
Proof. destruct p as [|x [|y p]]; simpl; eauto. Qed.

Lemma split_store_dir c name :
  file_name (DBDir c) = true →
  split (DBDir c +:+ "/" +:+ name +:+ "/") = DBDir c :: split (name +:+ "/").
Proof.
  intros (Hsep & _)%file_name_spec.
  by rewrite split_app_sep, (split_no_sep _ Hsep).
Qed.

Lemma names_empty : sort_names ((map_to_list (∅ : gmap string node)).*1) = [].
Proof. by rewrite map_to_list_empty. Qed.

End FreshStore.

(** X13: for a store whose root directory is a single file name, in any
    directory: [FlushDB] followed by [Open] returns no error and leaves the
    store open, and [Keys] then lists nothing. *)
Theorem FlushDB_then_Open_is_empty (c : Client) (pattern : string)
    (m : gmap string node) :
  file_name (DBDir c) = true →
  let '(err, c', t') := Open c (FlushDB c (Dir m)).2 in
  err = None ∧ IsOpen c' = true
  ∧ Keys c' pattern t' = NewStringSliceCmd [] None.
Proof.
  intros Hname.
  pose proof (file_name_spec _ Hname) as (Hsep & Hnul & Hne & Hdot & Hdots).
  (* the tree without the root directory of the store *)
  assert (∃ m1, (FlushDB c (Dir m)).2 = Dir m1 ∧ m1 !! DBDir c = None)
    as (m1 & -> & Hm1).
  { unfold FlushDB, RemoveAll, resolve. simpl.
    rewrite decide_False by done.
    rewrite (endsWithDot_no_sep _ Hsep Hdot), Hnul.
    rewrite decide_False by done.
    rewrite (split_no_sep _ Hsep), (walk_name _ [] _ m Hname eq_refl).
    simpl. destruct (m !! DBDir c) as [n |] eqn:E; simpl.
    - eexists. split; [done |]. apply lookup_partial_alter_eq.
    - by exists m. }
  (* the two directories, made anew *)
  set (t2 := Dir (<[DBDir c := Dir ∅]> m1)).
  set (t3 := set_node [DBDir c; "scalars"] (Some (Dir ∅)) t2).
  set (t4 := set_node [DBDir c; "hashes"] (Some (Dir ∅)) t3).
  assert (lookup_node [DBDir c] t2 = Some (Dir ∅)) as H2.
  { simpl. by rewrite lookup_insert_eq. }
  assert (lookup_node [DBDir c] t3 = Some (Dir (<["scalars" := Dir ∅]> ∅))) as H3.
  { apply (lookup_set_node [DBDir c] "scalars" _ _ _ H2). }
  assert (lookup_node [DBDir c] (Dir m1) = None) as H1.
  { simpl. by rewrite Hm1. }
  assert (MkdirAll (ScalarDir c) (Dir m1) = (None, t3)) as Hmk1.
  { unfold MkdirAll, ScalarDir.
    change (DBDir c +:+ "/scalars/") with (DBDir c +:+ "/" +:+ "scalars" +:+ "/").
    rewrite !has_nul_app, Hnul.
    change (has_nul "/" || (has_nul "scalars" || has_nul "/")) with false.
    cbn [orb].
    rewrite decide_False by (by intros [? _]%append_empty).
    rewrite (split_store_dir c "scalars" Hname).
    change (split ("scalars" +:+ "/")) with ["scalars"; ""].
    rewrite (mkdir_walk_name [] _ _ _ Hname).
    change ([] ++ [DBDir c]) with [DBDir c]. rewrite H1.
    change (set_node [DBDir c] (Some (Dir ∅)) (Dir m1)) with t2.
    by rewrite (mkdir_walk_child [DBDir c] "scalars" t2 ∅). }
  assert (MkdirAll (HashDir c) t3 = (None, t4)) as Hmk2.
  { unfold MkdirAll, HashDir.
    change (DBDir c +:+ "/hashes/") with (DBDir c +:+ "/" +:+ "hashes" +:+ "/").
    rewrite !has_nul_app, Hnul.
    change (has_nul "/" || (has_nul "hashes" || has_nul "/")) with false.
    cbn [orb].
    rewrite decide_False by (by intros [? _]%append_empty).
    rewrite (split_store_dir c "hashes" Hname).
    change (split ("hashes" +:+ "/")) with ["hashes"; ""].
    rewrite (mkdir_walk_name [] _ _ _ Hname).
    change ([] ++ [DBDir c]) with [DBDir c]. rewrite H3.
    by rewrite (mkdir_walk_child [DBDir c] "hashes" t3 (<["scalars" := Dir ∅]> ∅)). }
  unfold Open. simpl.
  change (ScalarDir (set_IsOpen false c)) with (ScalarDir c).
  change (HashDir (set_IsOpen false c)) with (HashDir c).
  rewrite Hmk1, Hmk2. split; [done |]. split; [done |].
  (* both are empty *)
  assert (lookup_node [DBDir c] t4
          = Some (Dir (<["hashes" := Dir ∅]> (<["scalars" := Dir ∅]> ∅)))) as H4.
  { apply (lookup_set_node [DBDir c] "hashes" _ _ _ H3). }
  assert (resolve (DBDir c) t4 = inr [DBDir c]) as Hroot.
  { unfold resolve. rewrite Hnul, decide_False, (split_no_sep _ Hsep) by done.
    destruct (set_node_root [DBDir c; "scalars"] (Some (Dir ∅)) (<[DBDir c := Dir ∅]> m1))
      as [m3 E3].
    destruct (set_node_root [DBDir c; "hashes"] (Some (Dir ∅)) m3) as [m4 E4].
    apply (walk_name _ [] _ m4); [done |].
    unfold t4, t3, t2. by rewrite E3, E4. }
  assert (scalars_at (set_IsOpen true (set_IsOpen false c)) t4 [DBDir c; "scalars"] ∅)
    as Hs.
  { split.
    - apply (resolve_child _ "scalars" _ _ _ Hroot H4 eq_refl).
    - unfold t4.
      rewrite (lookup_set_node_sibling [DBDir c] "scalars" "hashes" [] []) by done.
      apply (lookup_set_node_child [DBDir c] "scalars" _ _ _ H2). }
  assert (hashes_at (set_IsOpen true (set_IsOpen false c)) t4 [DBDir c; "hashes"] ∅)
    as Hh.
  { split.
    - apply (resolve_child _ "hashes" _ _ _ Hroot H4 eq_refl).
    - apply (lookup_set_node_child [DBDir c] "hashes" _ _ _ H3). }
  by rewrite (Keys_view _ _ _ _ _ _ pattern Hs Hh), names_empty.
Qed.

Lemma FlushDB_then_Open_is_empty_witness :
  let '(err, c', t') := Open client1 (FlushDB client1 (Dir entries5)).2 in
  err = None ∧ IsOpen c' = true
  ∧ Keys c' "*" t' = NewStringSliceCmd [] None.
Proof. apply (FlushDB_then_Open_is_empty client1 "*" entries5); by vm_compute. Defined.

(** ** The fields of a hash *)

Section HashLemmas.

(** The field of a hash whose directory is [m] at path [p]. *)
Lemma HGet_view c hash f t p m :
  IsOpen c = true →
  resolve (HashDir c +:+ hash) t = inr p → lookup_node p t = Some (Dir m) →
  file_name f = true →
  HGet c hash f t =
    match m !! f with
    | Some (File data) => NewStringCmd data None
    | Some (Dir _) =>
        NewStringCmd "" (Some (PathError "read" (HashDir c +:+ hash +:+ "/" +:+ f) EISDIR))
    | None =>
        NewStringCmd "" (Some (PathError "open" (HashDir c +:+ hash +:+ "/" +:+ f) ENOENT))
    end.
Proof.
  intros Hopen Hp Hm Hf. unfold HGet, ReadFile. rewrite Hopen.
  rewrite field_path at 1. rewrite (resolve_child _ _ _ _ _ Hp Hm Hf).
  rewrite lookup_node_app, Hm. simpl.
  by destruct (m !! f) as [[d | m'] |].
Qed.

(** [HDel] of a field that is there, when another entry stays. *)
Lemma HDel_view c hash key t p m data :
  IsOpen c = true →
  resolve (HashDir c +:+ hash) t = inr p → lookup_node p t = Some (Dir m) →
  file_name key = true → m !! key = Some (File data) → size m ≠ 1 →
  HDel c hash key t
  = (NewIntCmd (Z.of_nat (size m - 1)) None, set_node (p ++ [key]) None t).
Proof.
  intros Hopen Hp Hm Hk Hmk Hsz.
  assert (size m ≠ 0) as Hpos.
  { intros ->%map_size_empty_iff. by rewrite lookup_empty in Hmk. }
  set (t1 := set_node (p ++ [key]) None t).
  assert (∀ s, is_dir (lookup_node s t1) = is_dir (lookup_node s t)) as Hd1.
  { intros s. apply set_node_is_dir; [| done].
    by rewrite lookup_node_app, Hm; simpl; rewrite Hmk. }
  assert (lookup_node p t1 = Some (Dir (delete key m))) as Hm1.
  { apply (lookup_set_node _ key None _ _ Hm). }
  pose proof (resolve_is_dir _ _ _ _ Hd1 Hp) as Hp1.
  unfold HDel. rewrite Hopen, field_path.
  unfold Remove. rewrite (resolve_child _ _ _ _ _ Hp Hm Hk), lookup_node_app, Hm.
  simpl. rewrite Hmk. simpl. fold t1.
  unfold ReadDir. rewrite Hp1, Hm1, length_names.
  rewrite map_size_delete_Some by eauto.
  rewrite decide_False by lia. do 3 f_equal. lia.
Qed.

End HashLemmas.

(** X14: on an open store, for two different fields of a hash that are
    both present as files, [HDel] of one returns no error and a positive
    number of remaining entries, and [HGet] of the other returns the value
    it returned before, without error. *)
Theorem HDel_keeps_other_fields (c : Client) (hash key f : string) (t : node) :
  IsOpen c = true →
  file_name hash = true → file_name key = true → file_name f = true →
  f ≠ key →
  Stat (HashDir c +:+ hash +:+ "/" +:+ key) t = (false, None) →
  Stat (HashDir c +:+ hash +:+ "/" +:+ f) t = (false, None) →
  let '(rec, t') := HDel c hash key t in
  IntCmd_Err rec = None ∧ (0 < IntCmd_Val rec)%Z
  ∧ HGet c hash f t' = HGet c hash f t
  ∧ StringCmd_Err (HGet c hash f t) = None.
Proof.
  intros Hopen Hh Hk Hf Hne Hkey Hother.
  destruct (field_present _ _ _ _ Hh Hk Hkey)
    as (p0 & m0 & m & d & Hp0 & Hm0 & Hp & Hm & Hmk).
  destruct (field_present _ _ _ _ Hh Hf Hother)
    as (p0' & m0' & m' & d' & Hp0' & Hm0' & Hp' & Hm' & Hmf).
  assert (p0' = p0) as -> by congruence.
  assert (m' = m) as -> by congruence.
  assert (1 < size m) as Hsz.
  { rewrite <- (insert_id m key (File d)), <- (insert_delete_eq m) by done.
    rewrite map_size_insert_None by apply lookup_delete_eq.
    assert (size (delete key m) ≠ 0); [| lia].
    intros Hz%map_size_empty_iff.
    assert (delete key m !! f = Some (File d')) as Hx
      by (by rewrite lookup_delete_ne).
    by rewrite Hz, lookup_empty in Hx. }
  rewrite (HDel_view _ _ _ _ _ _ _ Hopen Hp Hm Hk Hmk) by lia.
  simpl. split; [done |]. split; [lia |].
  set (t1 := set_node ((p0 ++ [hash]) ++ [key]) None t).
  assert (∀ s, is_dir (lookup_node s t1) = is_dir (lookup_node s t)) as Hd1.
  { intros s. apply set_node_is_dir; [| done].
    by rewrite lookup_node_app, Hm; simpl; rewrite Hmk. }
  assert (lookup_node (p0 ++ [hash]) t1 = Some (Dir (delete key m))) as Hm1.
  { apply (lookup_set_node _ key None _ _ Hm). }
  pose proof (resolve_is_dir _ _ _ _ Hd1 Hp) as Hp1.
  rewrite (HGet_view _ _ _ _ _ _ Hopen Hp1 Hm1 Hf).
  rewrite (HGet_view _ _ _ _ _ _ Hopen Hp Hm Hf).
  rewrite lookup_delete_ne by done. by rewrite Hmf.
Qed.

Lemma HDel_keeps_other_fields_witness :
  let '(rec, t') := HDel client1 "h" "f" tree4 in
  IntCmd_Err rec = None ∧ (0 < IntCmd_Val rec)%Z
  ∧ HGet client1 "h" "g" t' = HGet client1 "h" "g" tree4
  ∧ StringCmd_Err (HGet client1 "h" "g" tree4) = None.
Proof.
  apply (HDel_keeps_other_fields client1 "h" "f" "g" tree4); first [done | by vm_compute].
Defined.

(** X15: [Set] does not look at the hashes.  On an open store, a [Set] of
    a key that is not a directory among the scalars succeeds and leaves
    every field that is present in a hash as [HGet] returned it, also when
    the key is the name of that hash. *)
Theorem Set_keeps_hash_fields (c : Client) (k v hash f : string) (t : node) :
  IsOpen c = true →
  Stat (ScalarDir c) t = (true, None) →
  file_name k = true → file_name hash = true → file_name f = true →
  (Stat (ScalarDir c +:+ k) t).1 = false →
  Stat (HashDir c +:+ hash +:+ "/" +:+ f) t = (false, None) →
  let '(rec, t') := Set_ c k v t in
  StatusCmd_Err rec = None
  ∧ HGet c hash f t' = HGet c hash f t
  ∧ StringCmd_Err (HGet c hash f t) = None.
Proof.
  intros Hopen (p & ms & Hs)%scalars_of_Stat Hk Hh Hf Hnd Hfield.
  assert (is_dir (ms !! k) = false) as Hold.
  { rewrite (Stat_view _ _ _ _ _ Hs Hk) in Hnd. by destruct (ms !! k) as [[d | m'] |]. }
  destruct (field_present _ _ _ _ Hh Hf Hfield)
    as (q & mh & m & data & Hq & Hmh & Hp & Hm & Hmf).
  destruct (store_dirs c t p ms q mh Hs (conj Hq Hmh)) as (d & -> & ->).
  rewrite (Set_view _ _ _ _ _ v Hopen Hs Hk Hold).
  split; [done |].
  destruct (scalars_update _ _ _ _ k (Some (File v)) Hs Hold eq_refl) as [_ Hd].
  pose proof (resolve_is_dir _ _ _ _ Hd Hp) as Hp1.
  assert (lookup_node ((d ++ ["hashes"]) ++ [hash])
            (set_node ((d ++ ["scalars"]) ++ [k]) (Some (File v)) t)
          = Some (Dir m)) as Hm1.
  { rewrite <- !app_assoc. simpl.
    by rewrite lookup_set_node_sibling, <- Hm, <- app_assoc. }
  rewrite (HGet_view _ _ _ _ _ _ Hopen Hp1 Hm1 Hf).
  rewrite (HGet_view _ _ _ _ _ _ Hopen Hp Hm Hf).
  by rewrite Hmf.
Qed.

Lemma Set_keeps_hash_fields_witness :
  let '(rec, t') := Set_ client1 "h" "1" tree3 in
  StatusCmd_Err rec = None
  ∧ HGet client1 "h" "f" t' = HGet client1 "h" "f" tree3
  ∧ StringCmd_Err (HGet client1 "h" "f" tree3) = None.
Proof. apply (Set_keeps_hash_fields client1 "h" "1" "h" "f" tree3); by vm_compute. Defined.

(** ** Lines of the dispatcher *)

Section MoreDispatcher.
Context {S : Type}.
Implicit Types (d : Dispatcher S) (w : World S).

Lemma Fields_go_all_space s cur :
  all_space s = true → Fields_go cur s = option_list cur.
Proof.
  revert cur. induction s as [|c s IH]; intros cur; [done |]. simpl.
  intros [Hc Hs]%andb_true_iff. rewrite Hc, (IH None Hs). apply app_nil_r.
Qed.

(** X16: a line of white space only is ignored by either revision of the
    dispatcher: nothing is printed, read or called. *)
Theorem blank_line_is_ignored d line opt_x w :
  all_space line = true → run d line opt_x w = Done () w.
Proof.
  intros H. destruct d; unfold run, ProcessCmd, ProcessCmd_0, Fields;
    by rewrite (Fields_go_all_space _ None H).
Qed.

(** X17: a line of ASCII characters whose first token is none of the
    verbs gets the reply for an unknown command, which quotes the token
    as typed; the backend is not called, whatever tokens follow. *)
Theorem unknown_verb_reply d line opt_x w t0 rest :
  isASCII line = true →
  Fields line = t0 :: rest → ToUpper t0 ∉ verbs →
  run d line opt_x w =
    Done () {| store := store w; stdout := stdout w +:+ unknown_command t0;
               stdin := stdin w; calls := calls w |}.
Proof.
  intros _ Hf Hv. rewrite (run_tokens _ _ _ _ _ _ Hf), dispatch_verb. cbv zeta.
  unfold verbs in Hv. rewrite !not_elem_of_cons in Hv.
  destruct Hv as (? & ? & ? & ? & ? & ? & ? & ? & ? & ? & ? & _).
  by rewrite !decide_False by done.
Qed.

(** One round of the loop of HSET. *)
Lemma hset_loop_round d tokens hash fuel n key value w :
  tokens !! (2 + n * 2) = Some key →
  tokens !! (2 + n * 2 + 1) = Some value →
  hset_loop (backend_of d) tokens hash (Datatypes.S fuel) n w =
    let '(err, s') := backend_HSET d hash key value (store w) in
    match err with
    | Some e =>
        Done None {| store := s'; stdout := stdout w +:+ Error e +:+ nl;
                     stdin := stdin w;
                     calls := calls w ++ [CallHSet hash key value] |}
    | None =>
        hset_loop (backend_of d) tokens hash fuel (n + 1)
          {| store := s'; stdout := stdout w; stdin := stdin w;
             calls := calls w ++ [CallHSet hash key value] |}
    end.
Proof.
  intros Hk Hv. cbn [hset_loop].
  unfold mbind at 1, M_bind at 1, index at 1. rewrite Hk.
  unfold mret at 1, M_ret at 1.
  unfold mbind at 1, M_bind at 1, index at 1. rewrite Hv.
  unfold mret at 1, M_ret at 1.
  unfold backend_HSET.
  destruct d as [[r | f] | f]; cbn [backend_of];
    unfold mbind, M_bind, call, mret, M_ret; cbn [store stdout stdin calls].
  - destruct (r_HSet r hash key value (store w)) as [rec s1].
    by destruct (IntCmd_Err rec).
  - by destruct (HSET f hash key value (store w)) as [[e |] s1].
  - by destruct (HSET f hash key value (store w)) as [[e |] s1].
Qed.

Lemma flatten_lookup t0 hash done_ k v rest i :
  (t0 :: hash :: flatten (done_ ++ (k, v) :: rest)) !! (2 + length done_ * 2 + i)
  = (k :: v :: flatten rest) !! i.
Proof.
  induction done_ as [|[a b] l IHl]; [done |]. simpl. apply IHl.
Qed.

(** The loop of HSET over the pairs of the line. *)
Lemma hset_loop_pairs d t0 hash pairs w :
  ∀ done_ rest, pairs = done_ ++ rest →
  hset_loop (backend_of d) (t0 :: hash :: flatten pairs) hash (length rest) (length done_) w
  = let '(cs, s', err) := hset_pairs d hash rest (store w) in
    match err with
    | Some e =>
        Done None {| store := s'; stdout := stdout w +:+ Error e +:+ nl;
                     stdin := stdin w; calls := calls w ++ cs |}
    | None =>
        Done (Some (length pairs))
             {| store := s'; stdout := stdout w; stdin := stdin w;
                calls := calls w ++ cs |}
    end.
Proof.
  intros done_ rest. revert done_ w.
  induction rest as [|[k v] rest IH]; intros done_ w Hp.
  - simpl. rewrite app_nil_r in Hp. subst. rewrite app_nil_r.
    by destruct w.
  - cbn [length hset_pairs].
    rewrite (hset_loop_round d _ hash _ _ k v).
    2:{ subst pairs. pose proof (flatten_lookup t0 hash done_ k v rest 0) as H.
        by rewrite Nat.add_0_r in H. }
    2:{ subst pairs. apply (flatten_lookup t0 hash done_ k v rest 1). }
    destruct (backend_HSET d hash k v (store w)) as [[e |] s1]; [done |].
    specialize (IH (done_ ++ [(k, v)])).
    rewrite length_app in IH. cbn [length] in IH.
    rewrite IH by (by rewrite <- (assoc_L (++))).
    cbn [store stdout stdin calls].
    destruct (hset_pairs d hash rest s1) as [[cs s2] [e |]];
      by rewrite <- (assoc_L (++)).
Qed.

Lemma length_flatten pairs : length (flatten pairs) = 2 * length pairs.
Proof. induction pairs as [|[k v] l IH]; simpl; lia. Qed.

End MoreDispatcher.

Lemma blank_line_is_ignored_witness :
  run (part_001 mem_db) "  " false (world0 []) = Done () (world0 []).
Proof. apply (blank_line_is_ignored (part_001 mem_db) "  " false (world0 [])). reflexivity. Defined.

Lemma unknown_verb_reply_witness :
  run (main_go (fs_JKV_DB mem_db)) "ping now" false (world0 []) =
    Done () {| store := store (world0 []);
               stdout := stdout (world0 []) +:+ unknown_command "ping";
               stdin := stdin (world0 []); calls := calls (world0 []) |}.
Proof.
  apply (unknown_verb_reply (main_go (fs_JKV_DB mem_db)) "ping now" false (world0 [])
           "ping" ["now"]); [reflexivity | reflexivity |].
  change (ToUpper "ping") with "PING". unfold verbs.
  rewrite !not_elem_of_cons. repeat split; try done. apply not_elem_of_nil.
Defined.

(** ** The replies of the dispatcher *)

Section Replies.
Context {S : Type}.
Implicit Types (d : Dispatcher S) (w : World S).

(** The branch of a verb, for either revision. *)
Ltac to_branch Hf Hv :=
  rewrite (run_tokens _ _ _ _ _ _ Hf), dispatch_verb; cbv zeta; rewrite Hv;
  repeat first [rewrite decide_True by done | rewrite decide_False by done].

Ltac run_monad :=
  unfold mbind, M_bind, call, index, print_nil_or_value, print_nil_or_OK,
    print_exists, Println, print, mret, M_ret;
  cbn [lookup list_lookup store stdout stdin calls].

(** X18: HSET on a line of ASCII characters, with a hash and one or more
    field/value pairs, when the backend reports no scalar of that name:
    after the existence query the
    pairs are written in order, one backend call each, up to the first
    write that fails.  The reply is the error of that write, or the number
    of pairs when all succeed. *)
Theorem HSET_writes_pairs_in_order d line opt_x w t0 hash pairs :
  isASCII line = true →
  Fields line = t0 :: hash :: flatten pairs → ToUpper t0 = "HSET" →
  pairs ≠ [] →
  (backend_EXISTS d hash (store w)).1 = false →
  let '(cs, s', err) :=
    hset_pairs d hash pairs (backend_EXISTS d hash (store w)).2 in
  run d line opt_x w =
    Done () {| store := s';
               stdout := (stdout w +:+ "add -x support" +:+ nl)
                         +:+ match err with
                             | Some e => Error e +:+ nl
                             | None => "(integer) " +:+ pretty (length pairs) +:+ nl
                             end;
               stdin := stdin w;
               calls := (calls w ++ [CallExists hash]) ++ cs |}.
Proof.
  intros _ Hf Hv Hne Hex. to_branch Hf Hv.
  assert (length (t0 :: hash :: flatten pairs) = 2 + 2 * length pairs) as Hlen
    by (simpl; rewrite length_flatten; lia).
  assert (0 < length pairs) as Hpos by (destruct pairs; [done | simpl; lia]).
  unfold cmd_HSET.
  destruct (decide (4 ≤ _ ∧ _)%nat) as [_ | Hbad].
  2:{ destruct Hbad. rewrite Hlen. split; [lia |].
      replace (2 + 2 * length pairs - 2) with (length pairs * 2) by lia.
      apply Nat.Div0.mod_mul. }
  rewrite decide_True by lia.
  replace ((length (t0 :: hash :: flatten pairs) - 1) / 2) with (length pairs).
  2:{ rewrite Hlen. replace (2 + 2 * length pairs - 1) with (1 + length pairs * 2) by lia.
      rewrite Nat.div_add by done. done. }
  pose proof (hset_loop_pairs d t0 hash pairs) as Hloop.
  revert Hex. unfold backend_EXISTS.
  destruct d as [[r | f] | f]; cbn [backend_of]; run_monad.
  - destruct (r_Exists r [hash] (store w)) as [rec s0]. simpl. intros ->.
    rewrite (Hloop _ [] pairs eq_refl). cbn [store stdout stdin calls].
    by destruct (hset_pairs _ hash pairs s0) as [[cs s2] [e |]].
  - destruct (EXISTS f hash (store w)) as [b s0]. simpl. intros ->.
    rewrite (Hloop _ [] pairs eq_refl). cbn [store stdout stdin calls].
    by destruct (hset_pairs _ hash pairs s0) as [[cs s2] [e |]].
  - destruct (EXISTS f hash (store w)) as [b s0]. simpl. intros ->.
    rewrite (Hloop _ [] pairs eq_refl). cbn [store stdout stdin calls].
    by destruct (hset_pairs _ hash pairs s0) as [[cs s2] [e |]].
Qed.

(** X19: on a line of ASCII characters, GET with one key makes one call
    on the backend and prints the value between quotes, or (nil) when the
    backend returns an error. *)
Theorem GET_reply d line opt_x w t0 key :
  isASCII line = true →
  Fields line = [t0; key] → ToUpper t0 = "GET" →
  let '((value, err), s') := backend_GET d key (store w) in
  run d line opt_x w =
    Done () {| store := s';
               stdout := stdout w
                         +:+ (if err is Some _ then "(nil)" +:+ nl
                              else cli.quote +:+ value +:+ cli.quote +:+ nl);
               stdin := stdin w;
               calls := calls w ++ [CallGet key] |}.
Proof.
  intros _ Hf Hv. to_branch Hf Hv. unfold cmd_GET, backend_GET.
  destruct d as [[r | f] | f]; cbn [backend_of]; simpl; run_monad.
  - destruct (r_Get r key (store w)) as [rec s']. simpl.
    by destruct (StringCmd_Err rec).
  - by destruct (GET f key (store w)) as [[value [e |]] s'].
  - by destruct (GET f key (store w)) as [[value [e |]] s'].
Qed.

(** X20: on a line of ASCII characters, DEL with one key makes one call
    on the backend; on success the reply is an empty string between
    quotes, never a count, and (nil) on an error. *)
Theorem DEL_reply d line opt_x w t0 key :
  isASCII line = true →
  Fields line = [t0; key] → ToUpper t0 = "DEL" →
  let '(err, s') := backend_DEL d key (store w) in
  run d line opt_x w =
    Done () {| store := s';
               stdout := stdout w
                         +:+ (if err is Some _ then "(nil)" +:+ nl
                              else cli.quote +:+ "" +:+ cli.quote +:+ nl);
               stdin := stdin w;
               calls := calls w ++ [CallDel key] |}.
Proof.
  intros _ Hf Hv. to_branch Hf Hv. unfold cmd_DEL, backend_DEL.
  destruct d as [[r | f] | f]; cbn [backend_of]; simpl; run_monad.
  - destruct (r_Del r [key] (store w)) as [rec s']. simpl.
    by destruct (IntCmd_Err rec).
  - by destruct (DEL f key (store w)) as [[e |] s'].
  - by destruct (DEL f key (store w)) as [[e |] s'].
Qed.

(** X21: outside stream mode, on a line of ASCII characters, SET with a
    key and a value makes one call on the backend with these two tokens
    and prints OK, or (nil) on an error. *)
Theorem SET_reply d line w t0 key value :
  isASCII line = true →
  Fields line = [t0; key; value] → ToUpper t0 = "SET" →
  let '(err, s') := backend_SET d key value (store w) in
  run d line false w =
    Done () {| store := s';
               stdout := stdout w +:+ (if err is Some _ then "(nil)" else "OK") +:+ nl;
               stdin := stdin w;
               calls := calls w ++ [CallSet key value] |}.
Proof.
  intros _ Hf Hv. to_branch Hf Hv. unfold cmd_SET, do_SET, backend_SET.
  destruct d as [[r | f] | f]; cbn [backend_of]; simpl; run_monad.
  - destruct (r_Set r key value (store w)) as [rec s']. simpl.
    by destruct (StatusCmd_Err rec).
  - by destruct (SET f key value (store w)) as [[e |] s'].
  - by destruct (SET f key value (store w)) as [[e |] s'].
Qed.

(** X22: on a line of ASCII characters, EXISTS with one key makes one
    call on the backend.  The current
    revision prints the count without a line end (the count of the reply
    for the remote backend, 1 or 0 for the other); the earlier revision
    prints 1 or 0 with a line end. *)
Theorem EXISTS_reply d line opt_x w t0 key :
  isASCII line = true →
  Fields line = [t0; key] → ToUpper t0 = "EXISTS" →
  match d with
  | main_go (redis_Client r) =>
      let '(rec, s') := r_Exists r [key] (store w) in
      run d line opt_x w =
        Done () {| store := s';
                   stdout := stdout w +:+ "(integer) " +:+ pretty (IntCmd_Val rec);
                   stdin := stdin w; calls := calls w ++ [CallExists key] |}
  | main_go (fs_JKV_DB f) =>
      let '(found, s') := EXISTS f key (store w) in
      run d line opt_x w =
        Done () {| store := s';
                   stdout := stdout w +:+ "(integer) " +:+ (if found then "1" else "0");
                   stdin := stdin w; calls := calls w ++ [CallExists key] |}
  | part_001 f =>
      let '(found, s') := EXISTS f key (store w) in
      run d line opt_x w =
        Done () {| store := s';
                   stdout := stdout w
                             +:+ "(integer) " +:+ (if found then "1" else "0") +:+ nl;
                   stdin := stdin w; calls := calls w ++ [CallExists key] |}
  end.
Proof.
  intros _ Hf Hv. to_branch Hf Hv. unfold cmd_EXISTS, cmd_EXISTS_0.
  destruct d as [[r | f] | f]; cbn [backend_of]; simpl; run_monad.
  - by destruct (r_Exists r [key] (store w)) as [rec s'].
  - by destruct (EXISTS f key (store w)) as [[] s'].
  - by destruct (EXISTS f key (store w)) as [[] s'].
Qed.

(** X23: on a line of ASCII characters, KEYS with one pattern against the
    remote backend makes one call and never prints a key: the reply is
    (nil) on an error and nothing at all otherwise, whatever keys the
    backend returned. *)
Theorem KEYS_remote_lists_nothing (r : RedisClient S) line opt_x w t0 pattern :
  isASCII line = true →
  Fields line = [t0; pattern] → ToUpper t0 = "KEYS" →
  let '(rec, s') := r_Keys r pattern (store w) in
  run (main_go (redis_Client r)) line opt_x w =
    Done () {| store := s';
               stdout := stdout w
                         +:+ (if StringSliceCmd_Err rec is Some _ then "(nil)" +:+ nl
                              else "");
               stdin := stdin w;
               calls := calls w ++ [CallKeys pattern] |}.
Proof.
  intros _ Hf Hv. to_branch Hf Hv. unfold cmd_KEYS. cbn [backend_of]. simpl.
  run_monad. destruct (r_Keys r pattern (store w)) as [rec s']. simpl.
  unfold print_nil_or_list.
  destruct (StringSliceCmd_Err rec); simpl; [done |].
  by rewrite append_nil_r.
Qed.

End Replies.

Lemma HSET_writes_pairs_in_order_witness :
  let '(cs, s', err) :=
    hset_pairs (part_001 mem_db) "h" [("f1", "v1"); ("f2", "v2")]
      (backend_EXISTS (part_001 mem_db) "h" (store (world0 []))).2 in
  run (part_001 mem_db) "hset h f1 v1 f2 v2" false (world0 []) =
    Done () {| store := s';
               stdout := (stdout (world0 []) +:+ "add -x support" +:+ nl)
                         +:+ match err with
                             | Some e => Error e +:+ nl
                             | None =>
                                 "(integer) "
                                 +:+ pretty (length [("f1", "v1"); ("f2", "v2")]) +:+ nl
                             end;
               stdin := stdin (world0 []);
               calls := (calls (world0 []) ++ [CallExists "h"]) ++ cs |}.
Proof.
  apply (HSET_writes_pairs_in_order (part_001 mem_db) "hset h f1 v1 f2 v2" false
           (world0 []) "hset" "h" [("f1", "v1"); ("f2", "v2")]); done.
Defined.

Lemma GET_reply_witness :
  let '((value, err), s') := backend_GET (part_001 mem_db) "k" (store (world0 [])) in
  run (part_001 mem_db) "get k" false (world0 []) =
    Done () {| store := s';
               stdout := stdout (world0 [])
                         +:+ (if err is Some _ then "(nil)" +:+ nl
                              else cli.quote +:+ value +:+ cli.quote +:+ nl);
               stdin := stdin (world0 []);
               calls := calls (world0 []) ++ [CallGet "k"] |}.
Proof. apply (GET_reply (part_001 mem_db) "get k" false (world0 []) "get" "k"); done. Defined.

Lemma DEL_reply_witness :
  let '(err, s') := backend_DEL (main_go (redis_Client mem_redis)) "k" (store (world0 [])) in
  run (main_go (redis_Client mem_redis)) "del k" false (world0 []) =
    Done () {| store := s';
               stdout := stdout (world0 [])
                         +:+ (if err is Some _ then "(nil)" +:+ nl
                              else cli.quote +:+ "" +:+ cli.quote +:+ nl);
               stdin := stdin (world0 []);
               calls := calls (world0 []) ++ [CallDel "k"] |}.
Proof.
  apply (DEL_reply (main_go (redis_Client mem_redis)) "del k" false (world0 []) "del" "k");
    done.
Defined.

Lemma SET_reply_witness :
  let '(err, s') := backend_SET (part_001 mem_db) "k" "v" (store (world0 [])) in
  run (part_001 mem_db) "set k v" false (world0 []) =
    Done () {| store := s';
               stdout := stdout (world0 []) +:+ (if err is Some _ then "(nil)" else "OK") +:+ nl;
               stdin := stdin (world0 []);
               calls := calls (world0 []) ++ [CallSet "k" "v"] |}.
Proof. apply (SET_reply (part_001 mem_db) "set k v" (world0 []) "set" "k" "v"); done. Defined.

Lemma EXISTS_reply_witness :
  let '(found, s') := EXISTS mem_db "k" (store (world0 [])) in
  run (main_go (fs_JKV_DB mem_db)) "exists k" false (world0 []) =
    Done () {| store := s';
               stdout := stdout (world0 []) +:+ "(integer) " +:+ (if found then "1" else "0");
               stdin := stdin (world0 []);
               calls := calls (world0 []) ++ [CallExists "k"] |}.
Proof.
  apply (EXISTS_reply (main_go (fs_JKV_DB mem_db)) "exists k" false (world0 [])
           "exists" "k"); done.
Defined.

Lemma KEYS_remote_lists_nothing_witness :
  let '(rec, s') := r_Keys mem_redis "*" (store (world0 [])) in
  run (main_go (redis_Client mem_redis)) "keys *" false (world0 []) =
    Done () {| store := s';
               stdout := stdout (world0 [])
                         +:+ (if StringSliceCmd_Err rec is Some _ then "(nil)" +:+ nl
                              else "");
               stdin := stdin (world0 []);
               calls := calls (world0 []) ++ [CallKeys "*"] |}.
Proof.
  apply (KEYS_remote_lists_nothing mem_redis "keys *" false (world0 []) "keys" "*"); done.
Defined.

(** ** Lines that return *)

Section Returns.
Context {S : Type}.
Implicit Types (d : Dispatcher S) (db : DB S) (w : World S).

Lemma extends_refl w : extends w w.
Proof.
  split; [done |]. split; [exists "" | exists []].
  - by rewrite append_nil_r.
  - by rewrite app_nil_r.
Qed.

Lemma extends_trans w1 w2 w3 : extends w1 w2 → extends w2 w3 → extends w1 w3.
Proof.
  intros (Hi & [o Ho] & [c Hc]) (Hi' & [o' Ho'] & [c' Hc']). split; [congruence |].
  split; [exists (o +:+ o') | exists (c ++ c')].
  - by rewrite Ho', Ho, append_assoc.
  - by rewrite Hc', Hc, app_assoc.
Qed.

Lemma returns_ret {A} (a : A) : returns (S:=S) (mret a).
Proof. intros w. exists a, w. split; [done | apply extends_refl]. Qed.

Lemma returns_bind {A B} (m : M S A) (k : A → M S B) :
  returns m → (∀ a, returns (k a)) → returns (m ≫= k).
Proof.
  intros Hm Hk w. destruct (Hm w) as (a & w1 & E1 & X1).
  destruct (Hk a w1) as (b & w2 & E2 & X2). exists b, w2.
  split; [| by eapply extends_trans]. unfold mbind, M_bind. by rewrite E1.
Qed.

Lemma returns_print s : returns (S:=S) (print s).
Proof.
  intros w. eexists _, _. split; [done |]. split; [done |].
  split; [by exists s | exists []; simpl; by rewrite app_nil_r].
Qed.

Lemma returns_Println s : returns (S:=S) (Println s).
Proof. apply returns_print. Qed.

Lemma returns_call {A} c (f : S → A * S) : returns (call c f).
Proof.
  intros w. unfold call. destruct (f (store w)) as [a s']. eexists _, _.
  split; [done |]. split; [done |].
  split; [exists ""; simpl; by rewrite append_nil_r | by exists [c]].
Qed.

Lemma returns_index tokens i : i < length tokens → returns (S:=S) (index tokens i).
Proof.
  intros [t Ht]%lookup_lt_is_Some_2. unfold index. rewrite Ht.
  apply returns_ret.
Qed.

Lemma returns_print_list values : ∀ i, returns (S:=S) (print_list i values).
Proof.
  induction values as [|v rest IH]; intros i; simpl; [apply returns_ret |].
  apply returns_bind; [apply returns_print | intros _; apply IH].
Qed.

Ltac returns_step :=
  first
    [ apply returns_ret | apply returns_print | apply returns_Println
    | apply returns_call | apply returns_print_list
    | apply returns_index; lia
    | apply returns_bind; [| intros ?] ].

Lemma returns_hset_loop db tokens hash fuel :
  ∀ n, 2 + (n + fuel) * 2 ≤ length tokens →
  returns (hset_loop db tokens hash fuel n).
Proof.
  induction fuel as [|fuel IH]; intros n Hn; simpl; [apply returns_ret |].
  apply returns_bind; [apply returns_index; lia | intros key].
  apply returns_bind; [apply returns_index; lia | intros value].
  apply returns_bind; [destruct db; repeat returns_step | intros err].
  destruct (decide (err ≠ None)); [repeat returns_step |].
  apply IH. lia.
Qed.

Ltac returns_cmd :=
  unfold print_nil_or_value, print_nil_or_OK, print_nil_or_list, print_exists;
  repeat first
    [ returns_step
    | match goal with
      | |- returns (if decide ?P then _ else _) => destruct (decide P)
      | |- returns (match ?db with redis_Client _ => _ | fs_JKV_DB _ => _ end) =>
          destruct db
      | |- returns (let '(_, _) := ?a in _) => destruct a
      | |- returns (if ?b then _ else _) => destruct b
      | |- returns (match ?o with Some _ => _ | None => _ end) => destruct o
      end ];
  try (apply returns_index; simpl in *; lia).

Lemma returns_cmd_HSET db tokens : returns (cmd_HSET db tokens).
Proof.
  unfold cmd_HSET. apply returns_bind; [apply returns_Println | intros _].
  destruct (decide (2 < length tokens)); [| apply returns_Println].
  apply returns_bind; [destruct db; returns_cmd | intros wrong].
  destruct wrong; [apply returns_Println |].
  destruct (decide _) as [[H4 Hev] |]; [| apply returns_Println].
  apply returns_bind; [apply returns_index; lia | intros hash].
  apply returns_bind; [| intros [n |]; returns_cmd].
  apply returns_hset_loop.
  assert (∃ k, length tokens = 2 + 2 * k) as [k Hk].
  { exists ((length tokens - 2) / 2).
    pose proof (Nat.div_mod_eq (length tokens - 2) 2). lia. }
  rewrite Hk. replace (2 + 2 * k - 1) with (1 + k * 2) by lia.
  rewrite Nat.div_add by done. simpl. lia.
Qed.

Lemma plain_line_two t0 t1 opt_x :
  plain_line [t0; t1] opt_x = true →
  ToUpper t0 ≠ "HDEL" ∧ (ToUpper t0 = "SET" → opt_x = false).
Proof.
  unfold plain_line. intros [H1 H2]%andb_true_iff.
  apply negb_true_iff, bool_decide_eq_false in H1. split; [done |]. intros E.
  apply negb_true_iff, andb_false_iff in H2 as [-> | H2]; [done |].
  by apply bool_decide_eq_false in H2.
Qed.

Lemma two_tokens t0 (rest : list string) :
  length (t0 :: rest) = 2 → ∃ t1, rest = [t1].
Proof. destruct rest as [|t1 [|]]; [done | by exists t1 | done]. Qed.

Lemma returns_the_dispatch d t0 rest opt_x :
  plain_line (t0 :: rest) opt_x = true →
  returns (the_dispatch d (t0 :: rest) opt_x t0).
Proof.
  intros Hp. rewrite dispatch_verb. cbv zeta.
  repeat match goal with
         | |- returns (if decide (ToUpper t0 = ?v) then _ else _) =>
             destruct (decide (ToUpper t0 = v))
         end.
  - unfold cmd_FLUSHDB. returns_cmd.
  - unfold cmd_HGET. returns_cmd.
  - apply returns_cmd_HSET.
  - unfold cmd_HDEL. destruct (decide _) as [[t1 ->]%two_tokens |]; [| returns_cmd].
    by apply plain_line_two in Hp as [? _].
  - unfold cmd_HKEYS. returns_cmd.
  - unfold cmd_HEXISTS, print_exists. returns_cmd.
  - unfold cmd_GET. returns_cmd.
  - unfold cmd_SET, do_SET, print_nil_or_OK. destruct opt_x.
    + destruct (decide _) as [[t1 ->]%two_tokens |]; [| returns_cmd].
      apply plain_line_two in Hp as [_ Hp]. by specialize (Hp ltac:(done)).
    + returns_cmd.
  - unfold cmd_DEL. returns_cmd.
  - unfold cmd_KEYS. returns_cmd.
  - destruct d; unfold cmd_EXISTS, cmd_EXISTS_0, print_exists; returns_cmd.
  - returns_cmd.
Qed.

Lemma returns_run d line opt_x :
  plain_line (Fields line) opt_x = true → returns (run d line opt_x).
Proof.
  intros Hp w. destruct (Fields line) as [|t0 rest] eqn:Hf.
  - exists (), w. split; [| apply extends_refl].
    destruct d; unfold run, ProcessCmd, ProcessCmd_0; by rewrite Hf.
  - rewrite (run_tokens _ _ _ _ _ _ Hf). by apply returns_the_dispatch.
Qed.

Lemma returns_read_loop d prompt opt_x lines :
  Forall (λ line, plain_line (Fields line) opt_x = true) lines →
  returns (read_loop d prompt opt_x lines).
Proof.
  induction 1 as [|line lines Hp _ IH]; simpl; [apply returns_ret |].
  apply returns_bind; [by apply returns_run | intros _].
  apply returns_bind; [apply returns_print | intros _; apply IH].
Qed.

(** X24: but for HDEL with two tokens and SET with two tokens in stream
    mode, no line of ASCII characters makes either revision of the
    dispatcher panic, whatever
    the backend returns: the command returns, standard input is not
    read, and output and backend calls are only added to. *)
Theorem plain_line_returns d line opt_x w :
  isASCII line = true →
  plain_line (Fields line) opt_x = true →
  ∃ w', run d line opt_x w = Done () w'
        ∧ stdin w' = stdin w
        ∧ (∃ out, stdout w' = stdout w +:+ out)
        ∧ (∃ cs, calls w' = calls w ++ cs).
Proof.
  intros _ Hp. destruct (returns_run d line opt_x Hp w) as ([] & w' & E & X).
  by exists w'.
Qed.

(** X25: the read loop of [main] over such lines (each of ASCII
    characters, none an HDEL with two tokens or a stream-mode SET with
    two tokens) runs to the end of its input without a panic, again
    without reading standard input and only adding to the output and the
    calls. *)
Theorem plain_session_returns d prompt opt_x lines w :
  Forall (λ line, isASCII line = true ∧ plain_line (Fields line) opt_x = true) lines →
  ∃ w', read_loop d prompt opt_x lines w = Done () w'
        ∧ stdin w' = stdin w
        ∧ (∃ out, stdout w' = stdout w +:+ out)
        ∧ (∃ cs, calls w' = calls w ++ cs).
Proof.
  intros Hp.
  assert (Forall (λ line, plain_line (Fields line) opt_x = true) lines) as Hp'.
  { eapply Forall_impl; [exact Hp |]. by intros line [_ ?]. }
  destruct (returns_read_loop d prompt opt_x lines Hp' w) as ([] & w' & E & X).
  by exists w'.
Qed.

End Returns.

Lemma plain_line_returns_witness :
  ∃ w', run (main_go (redis_Client mem_redis)) "hdel h f" true (world0 [typed_42])
        = Done () w'
        ∧ stdin w' = stdin (world0 [typed_42])
        ∧ (∃ out, stdout w' = stdout (world0 [typed_42]) +:+ out)
        ∧ (∃ cs, calls w' = calls (world0 [typed_42]) ++ cs).
Proof.
  apply (plain_line_returns (main_go (redis_Client mem_redis)) "hdel h f" true
           (world0 [typed_42])); reflexivity.
Defined.

Lemma plain_session_returns_witness :
  ∃ w', read_loop (part_001 mem_db) "jkv_db> " false
          ["set k v"; ""; "get k"; "hset h f"; "bogus"] (world0 [])
        = Done () w'
        ∧ stdin w' = stdin (world0 [])
        ∧ (∃ out, stdout w' = stdout (world0 []) +:+ out)
        ∧ (∃ cs, calls w' = calls (world0 []) ++ cs).
Proof.
  apply (plain_session_returns (part_001 mem_db) "jkv_db> " false
           ["set k v"; ""; "get k"; "hset h f"; "bogus"] (world0 [])).
  repeat constructor.
Defined.

(** ** The command line *)

Section MainLemmas.

Lemma has_sep_app a b : has_sep (a +:+ b) = has_sep a || has_sep b.
Proof.
  induction a as [|c a IH]; [done |]. rewrite append_cons. simpl.
  by rewrite IH, orb_assoc.
Qed.

Lemma Fields_go_sep cur a b :
  Fields_go cur (a +:+ " " +:+ b) = Fields_go cur a ++ Fields b.
Proof.
  revert cur. induction a as [|c a IH]; intros cur.
  - change ("" +:+ " " +:+ b) with (String " " b). simpl.
    done.
  - rewrite append_cons. simpl. destruct (asciiSpace c); [| apply IH].
    by rewrite IH, app_assoc.
Qed.

End MainLemmas.

(** X26: the name [main] takes for the program is the last component of
    [os.Args[0]]: for a name without a separator, it is that name whether
    the program is started by the bare name or by a path that ends in it,
    so that the default backend does not depend on the directory. *)
Theorem program_name_is_last_component (dir name : string) :
  has_sep name = false →
  program_name (dir +:+ "/" +:+ name) = name ∧ program_name name = name.
Proof.
  intros Hn. unfold program_name. rewrite Hn, !has_sep_app. simpl.
  rewrite orb_true_r, split_app_sep, (split_no_sep name Hn).
  by rewrite last_snoc.
Qed.

Lemma program_name_is_last_component_witness :
  program_name ("/usr/local/bin" +:+ "/" +:+ "jkv-cli") = "jkv-cli"
  ∧ program_name "jkv-cli" = "jkv-cli".
Proof.
  apply (program_name_is_last_component "/usr/local/bin" "jkv-cli"). reflexivity.
Defined.

Lemma Fields_Join (args : list string) :
  Fields (Join args " ") = concat (Fields <$> args).
Proof.
  induction args as [|a [|b rest] IH]; [done | |].
  - simpl. by rewrite app_nil_r.
  - change (Join (a :: b :: rest) " ") with (a +:+ " " +:+ Join (b :: rest) " ").
    unfold Fields at 1. rewrite Fields_go_sep. by rewrite IH.
Qed.

Lemma isASCII_app a b : isASCII (a +:+ b) = isASCII a && isASCII b.
Proof.
  induction a as [|c a IH]; [done |]. rewrite append_cons. simpl.
  by rewrite IH, andb_assoc.
Qed.

Lemma isASCII_Join (args : list string) :
  Forall (λ a, isASCII a = true) args → isASCII (Join args " ") = true.
Proof.
  induction 1 as [|a rest Ha Hrest IH]; [done |].
  destruct rest as [|b rest]; [done |].
  change (Join (a :: b :: rest) " ") with (a +:+ " " +:+ Join (b :: rest) " ").
  by rewrite !isASCII_app, Ha, IH.
Qed.

(** The tokens of a line of ASCII characters are of ASCII characters. *)
Lemma Fields_go_isASCII s : ∀ cur,
  isASCII (default "" cur) = true → isASCII s = true →
  Forall (λ t, isASCII t = true) (Fields_go cur s).
Proof.
  induction s as [|c s IH]; intros cur Hcur Hs; simpl in *.
  - destruct cur; simpl; [by constructor | constructor].
  - apply andb_true_iff in Hs as [Hc Hs].
    destruct (asciiSpace c).
    + apply Forall_app. split; [| by apply (IH None)].
      destruct cur; simpl; [by constructor | constructor].
    + apply IH; [| done]. simpl. rewrite isASCII_app, Hcur. simpl.
      by rewrite Hc.
Qed.

Lemma Fields_isASCII line :
  isASCII line = true → Forall (λ t, isASCII t = true) (Fields line).
Proof. intros H. by apply Fields_go_isASCII. Qed.

(** [ProcessCmd] sees its line through the tokens only. *)
Lemma run_Fields {S} (d : Dispatcher S) line line' opt_x :
  Fields line = Fields line' → run d line opt_x = run d line' opt_x.
Proof.
  intros H. destruct d; unfold run, ProcessCmd, ProcessCmd_0; by rewrite H.
Qed.

(** X27: in single-shot mode [main] joins the arguments with a space and
    [ProcessCmd] splits the result again.  For arguments of ASCII
    characters the command is again a line of ASCII characters, its
    tokens are the fields of the arguments, one after the other (an
    argument with white space in it counts as several tokens and an empty
    one as none), and the command runs as any line with these tokens
    does when typed at the prompt. *)
Theorem single_shot_tokens {S} (d : Dispatcher S) (args : list string)
    (opt_x : bool) (w : World S) :
  Forall (λ a, isASCII a = true) args →
  isASCII (Join args " ") = true
  ∧ Fields (Join args " ") = concat (Fields <$> args)
  ∧ ∀ line, isASCII line = true → Fields line = concat (Fields <$> args) →
      single_shot d args opt_x w = run d line opt_x w.
Proof.
  intros Hargs. split; [by apply isASCII_Join |].
  split; [apply Fields_Join |]. intros line _ Hline. unfold single_shot.
  by rewrite (run_Fields d (Join args " ") line) by (by rewrite Fields_Join).
Qed.

Lemma single_shot_tokens_witness :
  isASCII (Join ["set"; "k  v"; ""] " ") = true
  ∧ Fields (Join ["set"; "k  v"; ""] " ") = concat (Fields <$> ["set"; "k  v"; ""])
  ∧ ∀ line, isASCII line = true →
      Fields line = concat (Fields <$> ["set"; "k  v"; ""]) →
      single_shot (part_001 mem_db) ["set"; "k  v"; ""] false (world0 [])
      = run (part_001 mem_db) line false (world0 []).
Proof.
  apply (single_shot_tokens (part_001 mem_db) ["set"; "k  v"; ""] false (world0 [])).
  repeat constructor.
Defined.
